(** * Presentation helpers of [formatter.cpp]

    A shallow embedding of [src/common/formatter.cpp] (namespace
    [formatter]) and the properties its specification states.

    Conventions of the embedding.
    - [QString] is a sequence of 8-bit characters (the Latin-1 range of
      [QChar]); the operations of [QString] that the code calls are written
      out in module [QStr] after Qt's documentation.
    - [int] and [qint64] are [Z]; the narrowing [static_cast<int>] of a
      [qint64] is written out as a wrap-around.
    - [double] is an exact rational [Q]: every finite double is a rational
      and the few operations of the code ([-], [* 60], [floor], [round]) are
      taken exact.  Converting a double outside the range of [int] to [int]
      is undefined in C++; [fitsInt] is that range.
    - the services of the host (translation, locale, date and time,
      coordinate parser) are section variables; the file-static
      [dateTimeFormats] is threaded explicitly. *)

From Stdlib Require Import ZArith QArith Qround List String Ascii Bool Lia Lqa.
From Stdlib Require Import DecimalString.
Import ListNotations.

Local Open Scope string_scope.

(** ** [QString] *)

Definition QString := string.

Module QStr.

(** [QChar::isSpace] on the Latin-1 range: tab, line feed, vertical tab,
    form feed, carriage return, space, next line (0x85), no-break space
    (0xA0). *)
Definition isSpace (c : ascii) : bool :=
  let n := nat_of_ascii c in
  ((9 <=? n) && (n <=? 13) || (n =? 32) || (n =? 133) || (n =? 160))%nat.

(** State of the scan of [QString::simplified]: nothing copied yet, inside
    a word, or a run of whitespace after a word. *)
Inductive simp_state := AtStart | InWord | AfterGap.

Fixpoint simplified_from (st : simp_state) (s : QString) : QString :=
  match s with
  | "" => ""
  | String c s' =>
      if isSpace c then
        simplified_from (match st with AtStart => AtStart | _ => AfterGap end) s'
      else
        match st with
        | AfterGap => String " " (String c (simplified_from InWord s'))
        | _ => String c (simplified_from InWord s')
        end
  end.

(** [QString::simplified]: whitespace removed from both ends, every
    interior run of whitespace replaced by one space. *)
Definition simplified (s : QString) : QString := simplified_from AtStart s.

Definition isEmpty (s : QString) : bool :=
  match s with "" => true | _ => false end.

(** [QString::endsWith]: some suffix of [s] is [sub]. *)
Fixpoint endsWith (s sub : QString) : bool :=
  (s =? sub) ||
  match s with
  | "" => false
  | String _ s' => endsWith s' sub
  end.

(** [QString::contains(const QString &)]. *)
Fixpoint contains (s sub : QString) : bool :=
  prefix sub s ||
  match s with
  | "" => false
  | String _ s' => contains s' sub
  end.

(** Left-to-right scan of [QString::replace] for a non-empty [before]:
    [skip] counts the characters of a match still to be dropped. *)
Fixpoint replace_from (skip : nat) (s before after : QString) : QString :=
  match s with
  | "" => ""
  | String c s' =>
      match skip with
      | S k => replace_from k s' before after
      | O =>
          if prefix before s
          then after ++ replace_from (String.length before - 1) s' before after
          else String c (replace_from 0 s' before after)
      end
  end.

(** An empty [before] matches once between any two characters and at both
    ends. *)
Fixpoint insert_everywhere (s after : QString) : QString :=
  match s with
  | "" => after
  | String c s' => after ++ String c (insert_everywhere s' after)
  end.

(** [QString::replace(before, after)]: every occurrence of [before],
    found from the left without overlap, becomes [after]. *)
Definition replace (s before after : QString) : QString :=
  match before with
  | "" => insert_everywhere s after
  | _ => replace_from 0 s before after
  end.

(** A word character of the regular-expression engine: [A-Za-z0-9_]. *)
Definition isWordChar (c : ascii) : bool :=
  let n := nat_of_ascii c in
  ((48 <=? n) && (n <=? 57) || (65 <=? n) && (n <=? 90) ||
   (97 <=? n) && (n <=? 122) || (n =? 95))%nat.

(** Does the text start with a word character? *)
Definition startsWord (s : QString) : bool :=
  match s with
  | "" => false
  | String c _ => isWordChar c
  end.

(** The match of ["yy"] between two word boundaries at the head of [s],
    [prevWord] telling whether the character before [s] is a word
    character. *)
Definition yyTokenHere (prevWord : bool) (s : QString) : bool :=
  match s with
  | String a (String b rest) =>
      (a =? "y")%char && (b =? "y")%char && negb prevWord && negb (startsWord rest)
  | _ => false
  end.

(** [contains(QRegularExpression("\\byy\\b"))]. *)
Fixpoint containsYearToken (prevWord : bool) (s : QString) : bool :=
  yyTokenHere prevWord s ||
  match s with
  | "" => false
  | String c s' => containsYearToken (isWordChar c) s'
  end.

(** Is the character before the end of [l] a word character?  [prevWord]
    answers for the empty text. *)
Fixpoint endsWord_from (prevWord : bool) (l : QString) : bool :=
  match l with
  | "" => prevWord
  | String c l' => endsWord_from (isWordChar c) l'
  end.

Definition endsWord (l : QString) : bool := endsWord_from false l.

(** Does the character [c] occur in [s]? *)
Fixpoint hasChar (c : ascii) (s : QString) : bool :=
  match s with
  | "" => false
  | String d s' => (d =? c)%char || hasChar c s'
  end.

(** Does [s] hold a whitespace character? *)
Fixpoint hasSpace (s : QString) : bool :=
  match s with
  | "" => false
  | String c s' => isSpace c || hasSpace s'
  end.

(** [sub] occurs in [s]. *)
Definition occursIn (sub s : QString) : Prop := exists l r, s = l ++ sub ++ r.

(** ["yy"] occurs in [s] between two word boundaries. *)
Definition yearTokenIn (s : QString) : Prop :=
  exists l r, s = l ++ "yy" ++ r /\ endsWord l = false /\ startsWord r = false.

End QStr.

Import QStr.

(** ** Year variant of a pattern (lines 182-190) *)

Definition yearVariant (dateTimeFormat : QString) : QString :=
  if contains dateTimeFormat "yyyy" then
    replace dateTimeFormat "yyyy" "yy"
  else if containsYearToken false dateTimeFormat then
    replace dateTimeFormat "yy" "yyyy"
  else dateTimeFormat.

(** ** Place markers of [QString::arg] *)

Module Arg.

(** A template is read as literal characters and place markers [%n] or
    [%Ln] with one or two digits; a marker keeps its own text. *)
Inductive piece :=
| Lit (c : ascii)
| Marker (localized : bool) (number : nat) (text : QString).

(** [QChar::digitValue] on the Latin-1 range. *)
Definition digitValue (c : ascii) : option nat :=
  let n := nat_of_ascii c in
  if ((48 <=? n) && (n <=? 57))%nat then Some (n - 48)%nat else None.

(** The scan of [findArgEscapes]: after a [%] (and an optional [L]) that no
    digit follows, the scan goes on at the character that was looked at. *)
Fixpoint pieces (s : QString) : list piece :=
  match s with
  | "" => []
  | String c r =>
      if negb (c =? "%")%char then Lit c :: pieces r else
      match r with
      | "" => [Lit c]
      | String c1 r1 =>
          if (c1 =? "L")%char then
            match r1 with
            | "" => [Lit c; Lit c1]
            | String c2 r2 =>
                match digitValue c2 with
                | None => Lit c :: Lit c1 :: pieces r1
                | Some d =>
                    match r2 with
                    | "" => [Marker true d (String c (String c1 (String c2 "")))]
                    | String c3 r3 =>
                        match digitValue c3 with
                        | Some d' =>
                            Marker true (10 * d + d')
                              (String c (String c1 (String c2 (String c3 ""))))
                            :: pieces r3
                        | None =>
                            Marker true d (String c (String c1 (String c2 "")))
                            :: pieces r2
                        end
                    end
                end
            end
          else
            match digitValue c1 with
            | None => Lit c :: pieces r
            | Some d =>
                match r1 with
                | "" => [Marker false d (String c (String c1 ""))]
                | String c2 r2 =>
                    match digitValue c2 with
                    | Some d' =>
                        Marker false (10 * d + d')
                          (String c (String c1 (String c2 ""))) :: pieces r2
                    | None =>
                        Marker false d (String c (String c1 "")) :: pieces r1
                    end
                end
            end
      end
  end.

(** The literal pieces of a text. *)
Fixpoint lits (p : QString) : list piece :=
  match p with
  | "" => []
  | String c p' => Lit c :: lits p'
  end.

(** The lowest marker number of a template, if it has a marker. *)
Fixpoint lowest (ps : list piece) : option nat :=
  match ps with
  | [] => None
  | Lit _ :: ps' => lowest ps'
  | Marker _ n _ :: ps' =>
      match lowest ps' with
      | None => Some n
      | Some m => Some (Nat.min n m)
      end
  end.

Fixpoint fillChars (n : nat) (fillChar : ascii) : QString :=
  match n with
  | O => ""
  | S k => String fillChar (fillChars k fillChar)
  end.

(** Padding on the left up to a positive field width. *)
Definition padLeft (fieldWidth : nat) (fillChar : ascii) (a : QString) : QString :=
  fillChars (fieldWidth - String.length a) fillChar ++ a.

(** [replaceArgEscapes]: every marker with the lowest number becomes the
    argument ([la] at a marker written with [L]); the rest is copied. *)
Fixpoint fill (m fieldWidth : nat) (fillChar : ascii) (a la : QString)
    (ps : list piece) : QString :=
  match ps with
  | [] => ""
  | Lit c :: ps' => String c (fill m fieldWidth fillChar a la ps')
  | Marker l n t :: ps' =>
      (if (n =? m)%nat
       then padLeft fieldWidth fillChar (if l then la else a)
       else t) ++ fill m fieldWidth fillChar a la ps'
  end.

(** A template without a marker is returned as it is (Qt warns). *)
Definition argWith (s : QString) (fieldWidth : nat) (fillChar : ascii)
    (a la : QString) : QString :=
  match lowest (pieces s) with
  | None => s
  | Some m => fill m fieldWidth fillChar a la (pieces s)
  end.

(** [QString::arg(const QString &)], field width 0. *)
Definition arg (s a : QString) : QString := argWith s 0 " " a a.

(** Decimal digits of a non-negative number ([qulltoa], base 10). *)
Definition digits (n : Z) : QString := NilZero.string_of_uint (N.to_uint (Z.to_N n)).

(** [QLocaleData::c()->longLongToString(l, -1, 10, width, flags)] where
    [flags] is [ZeroPadded] or nothing: the zeros leave room for the
    sign. *)
Definition cNumber (l : Z) (width : nat) (zeroPadded : bool) : QString :=
  let num_str := digits (Z.abs l) in
  let sign := if (l <? 0)%Z then "-" else "" in
  let pad :=
    if zeroPadded
    then fillChars (width - String.length num_str - String.length sign) "0"
    else "" in
  sign ++ pad ++ num_str.

End Arg.

Import Arg.

(** ** Numbers of the C++ code *)

(** [static_cast<int>] of a [double]: the fraction is dropped (towards
    zero).  Defined in C++ when the result fits an [int]. *)
Definition static_cast_int (d : Q) : Z :=
  if Qle_bool 0 d then Qfloor d else Qceiling d.

(** The doubles whose conversion to [int] is defined. *)
Definition fitsInt (d : Q) : Prop := (- (2147483649 # 1) < d /\ d < 2147483648 # 1)%Q.

(** [std::floor]. *)
Definition floor (d : Q) : Q := inject_Z (Qfloor d).

(** [std::round]: to the nearest integer, halves away from zero. *)
Definition round (d : Q) : Q :=
  inject_Z (if Qle_bool 0 d then Qfloor (d + (1 # 2)) else Qceiling (d - (1 # 2))).

(** Modelled from the spec: [atools::roundToInt] is declared in [atools.h],
    which is not among the sources.  The specification has the minutes
    rounded to the nearest integer, halves away from zero; in atools this
    is [static_cast<int>(round(value))]. *)
Definition roundToInt (value : Q) : Z := static_cast_int (round value).

(** The minutes before rounding: the part of [time] behind the point,
    times 60. *)
Definition unroundedMinutes (time : Q) : Q := ((time - floor time) * (60 # 1))%Q.

(** [static_cast<int>] of a [qint64]: the low 32 bits, read as signed. *)
Definition narrow_int (z : Z) : Z := ((z + 2147483648) mod 4294967296 - 2147483648)%Z.

(** ** The duration formatters (lines 37-98) *)

Section Formatters.

(** [QObject::tr]. *)
Variable tr : QString -> QString.

(** [longLongToString] of the default locale [QLocale()]: value, field
    width, zero padding; digits are shaped and grouped by the locale. *)
Variable localeNumber : Z -> nat -> bool -> QString.

(** [QLocale().toString(int)]. *)
Definition toString (i : Z) : QString := localeNumber i 0 false.

(** [QString::arg(int a, int fieldWidth, int base = 10, QChar fillChar)]:
    a plain marker takes the C rendering, a marker with [L] the locale's. *)
Definition argInt (s : QString) (a : Z) (fieldWidth : nat) (fillChar : ascii) : QString :=
  let zeroPadded := (fillChar =? "0")%char in
  argWith s fieldWidth fillChar
    (cNumber a fieldWidth zeroPadded) (localeNumber a fieldWidth zeroPadded).

(** Hours and minutes as [formatMinutesHours] and [formatMinutesHoursLong]
    compute them (lines 39-45 and 52-58), carry included. *)
Definition hoursMinutes (time : Q) : Z * Z :=
  let hours := static_cast_int time in
  let minutes := roundToInt ((time - inject_Z hours) * (60 # 1)) in
  if (minutes =? 60)%Z then ((hours + 1)%Z, 0%Z) else (hours, minutes).

Definition formatMinutesHours (time : Q) : QString :=
  let '(hours, minutes) := hoursMinutes time in
  argInt (arg (tr "%1:%2") (toString hours)) minutes 2 "0".

Definition formatMinutesHoursLong (time : Q) : QString :=
  let '(hours, minutes) := hoursMinutes time in
  argInt (arg (tr "%1 h %2 m") (toString hours)) minutes 2 "0".

(** Days, hours and minutes as [formatMinutesHoursDays] and
    [formatMinutesHoursDaysLong] compute them (lines 66-68 and 77-79). *)
Definition daysHoursMinutes (time : Q) : Z * Z * Z :=
  let days := Z.quot (static_cast_int time) 24 in
  let hours := (static_cast_int time - days * 24)%Z in
  let minutes := roundToInt ((time - floor time) * (60 # 1)) in
  (days, hours, minutes).

Definition formatMinutesHoursDays (time : Q) : QString :=
  let '(days, hours, minutes) := daysHoursMinutes time in
  argInt (argInt (arg (tr "%1:%2:%3") (toString days)) hours 2 "0") minutes 2 "0".

Definition formatMinutesHoursDaysLong (time : Q) : QString :=
  let '(days, hours, minutes) := daysHoursMinutes time in
  let retval := "" in
  let retval :=
    if (days >? 0)%Z then retval ++ arg (tr "%1 d") (toString days) else retval in
  let retval :=
    if (hours >? 0)%Z then
      if negb (isEmpty retval)
      then retval ++ argInt (tr " %1 h") hours 2 "0"
      else retval ++ arg (tr "%1 h") (toString hours)
    else retval in
  let retval :=
    if negb (isEmpty retval)
    then retval ++ argInt (tr " %1 m") minutes 2 "0"
    else retval ++ arg (tr "%1 m") (toString minutes) in
  retval.

(** ** Elapsed time (lines 139-153); [elapsed] is [timer.elapsed()] *)

Definition formatElapsed (elapsed : Z) : QString :=
  let secs := narrow_int (Z.quot elapsed 1000) in
  if (secs <? 60)%Z then
    arg (argInt (tr "%L1 %2") secs 0 " ")
        (if (secs =? 1)%Z then tr "second" else tr "seconds")
  else
    let mins := Z.quot secs 60 in
    let secs := (secs - mins * 60)%Z in
    arg (argInt
           (arg (argInt (tr "%L1 %2 %L3 %4") mins 0 " ")
                (if (mins =? 1)%Z then tr "minute" else tr "minutes"))
           secs 0 " ")
        (if (secs =? 1)%Z then tr "second" else tr "seconds").

End Formatters.

(** The source texts when no translation is installed. *)
Definition untranslated (sourceText : QString) : QString := sourceText.

(** The C locale: ASCII digits, no group separator. *)
Definition cLocaleNumber : Z -> nat -> bool -> QString := cNumber.

(** [static_cast<uint>] of an [int]. *)
Definition to_uint (i : Z) : Z := (i mod 4294967296)%Z.

(** ** Dates (lines 116-137) *)

Inductive DateFormat := DefaultLocaleShortDate | DefaultLocaleLongDate.

Section Dates.

Variable tr : QString -> QString.

(** [QDateTime] and the operations the code calls on it;
    [defaultDateTime] is the default-constructed value. *)
Variable QDateTime : Type.
Variable defaultDateTime : QDateTime.
Variable setTimeSpecUTC : QDateTime -> QDateTime.
Variable setTime_t : Z -> QDateTime -> QDateTime.
Variable isValid : QDateTime -> bool.
Variable isNull : QDateTime -> bool.
Variable dateTimeToString : QDateTime -> DateFormat -> QString.

Definition formatDate (timeT : Z) : QString :=
  let dateTime := defaultDateTime in
  let dateTime := setTimeSpecUTC dateTime in
  let dateTime := setTime_t (to_uint timeT) dateTime in
  if (timeT >? 0)%Z && isValid dateTime && negb (isNull dateTime)
  then dateTimeToString dateTime DefaultLocaleShortDate
  else tr "Invalid date".

Definition formatDateLong (timeT : Z) : QString :=
  let dateTime := defaultDateTime in
  let dateTime := setTimeSpecUTC dateTime in
  let dateTime := setTime_t (to_uint timeT) dateTime in
  if (timeT >? 0)%Z && isValid dateTime && negb (isNull dateTime)
  then replace (dateTimeToString dateTime DefaultLocaleLongDate) (tr "UTC") ""
  else tr "Invalid date".

End Dates.

(** ** Coordinates (lines 160-180) *)

Section Coordinates.

Variable tr : QString -> QString.

(** [atools::geo::Pos], [atools::fs::util::fromAnyFormat],
    [Pos::isValid], [Unit::coords] and [HtmlBuilder::errorMessage]. *)
Variable Pos : Type.
Variable fromAnyFormat : QString -> Pos.
Variable posIsValid : Pos -> bool.
Variable unitCoords : Pos -> QString.
Variable errorMessage : QString -> QString.

(** The result is the returned [bool] and the text left in [message]. *)
Definition checkCoordinates (message text : QString) : bool * QString :=
  let pos := fromAnyFormat text in
  if posIsValid pos then
    let coords := unitCoords pos in
    let message :=
      if negb (coords =? text)
      then arg (tr "Coordinates are valid: %1") coords
      else tr "Coordinates are valid." in
    (true, message)
  else
    let message := errorMessage (tr "Coordinates are not valid.") in
    (false, message).

End Coordinates.

(** ** The catalogue of patterns and the parser (lines 35, 192-255) *)

Inductive FormatType := ShortFormat | LongFormat | NarrowFormat.

Definition QStringList := list QString.

(** [QStringList::clear] and [QStringList::append]. *)
Definition clear (l : QStringList) : QStringList := [].
Definition append (l : QStringList) (value : QString) : QStringList := (l ++ [value])%list.

Section Catalogue.

(** [QLocale]: the system locale, the English locale, the pattern of a
    locale in a width, and the parser of a text under a pattern. *)
Variable QLocale : Type.
Variable system : QLocale.
Variable English : QLocale.
Variable dateTimeFormat : QLocale -> FormatType -> QString.

Variable QDateTime : Type.
Variable defaultDateTime : QDateTime.
Variable isValid : QDateTime -> bool.
Variable toDateTime : QLocale -> QString -> QString -> QDateTime.

(** The loop of lines 223-230 over the copy [temp], appending to
    [dateTimeFormats]. *)
Definition addZoneVariants (temp dateTimeFormats : QStringList) : QStringList :=
  fold_left
    (fun dateTimeFormats t =>
       if negb (endsWith t "t")
       then append (append dateTimeFormats (t ++ " t")) (t ++ "t")
       else dateTimeFormats)
    temp dateTimeFormats.

(** The argument is the content of the static [dateTimeFormats] before the
    call, the result its content after the call. *)
Definition initTranslateableTexts (dateTimeFormats : QStringList) : QStringList :=
  let locale := system in
  let dateTimeFormats := clear dateTimeFormats in
  let dateTimeFormats := append dateTimeFormats (dateTimeFormat locale ShortFormat) in
  let dateTimeFormats := append dateTimeFormats (dateTimeFormat locale LongFormat) in
  let dateTimeFormats := append dateTimeFormats (dateTimeFormat locale NarrowFormat) in
  let dateTimeFormats :=
    append dateTimeFormats (yearVariant (dateTimeFormat locale ShortFormat)) in
  let dateTimeFormats :=
    append dateTimeFormats (yearVariant (dateTimeFormat locale LongFormat)) in
  let dateTimeFormats :=
    append dateTimeFormats (yearVariant (dateTimeFormat locale NarrowFormat)) in
  let localeEn := English in
  let dateTimeFormats := append dateTimeFormats (dateTimeFormat localeEn ShortFormat) in
  let dateTimeFormats := append dateTimeFormats (dateTimeFormat localeEn LongFormat) in
  let dateTimeFormats := append dateTimeFormats (dateTimeFormat localeEn NarrowFormat) in
  let dateTimeFormats :=
    append dateTimeFormats (yearVariant (dateTimeFormat localeEn ShortFormat)) in
  let dateTimeFormats :=
    append dateTimeFormats (yearVariant (dateTimeFormat localeEn LongFormat)) in
  let dateTimeFormats :=
    append dateTimeFormats (yearVariant (dateTimeFormat localeEn NarrowFormat)) in
  let temp := dateTimeFormats in
  addZoneVariants temp dateTimeFormats.

(** The loop of lines 248-253: [retval] is overwritten by every attempt
    and the loop is left at the first valid one. *)
Fixpoint tryFormats (locale : QLocale) (str : QString) (retval : QDateTime)
    (formats : QStringList) : QDateTime :=
  match formats with
  | [] => retval
  | format :: rest =>
      let retval := toDateTime locale str format in
      if isValid retval then retval else tryFormats locale str retval rest
  end.

Definition readDateTime (dateTimeFormats : QStringList) (str : QString) : QDateTime :=
  let retval := defaultDateTime in
  let locale := system in
  let str := simplified str in
  tryFormats locale str retval dateTimeFormats.

End Catalogue.

(** ** The operations as the specification words them

    Second definitions, written after the sentences of the specification
    and compared below with the ones taken from the code. *)

Module Worded.

(** The words of a text are its maximal runs of characters that are not
    whitespace; [cur] is the word being read. *)
Fixpoint splitWords (cur s : QString) : list QString :=
  match s with
  | "" => if isEmpty cur then [] else [cur]
  | String c s' =>
      if isSpace c then
        if isEmpty cur then splitWords "" s' else cur :: splitWords "" s'
      else splitWords (cur ++ String c "") s'
  end.

Definition words (s : QString) : list QString := splitWords "" s.

(** "Collapse runs of whitespace, trim ends": the words, one space
    between two of them. *)
Definition normalized (s : QString) : QString := String.concat " " (words s).

(** "A two-digit year token (matched only at word boundaries) promoted to
    four digits": the tokens between word boundaries become ["yyyy"], the
    rest of the pattern stays. *)
Fixpoint promoteTokens (skip : nat) (prevWord : bool) (s : QString) : QString :=
  match s with
  | "" => ""
  | String c s' =>
      match skip with
      | S k => promoteTokens k (isWordChar c) s'
      | O =>
          if yyTokenHere prevWord s
          then "yyyy" ++ promoteTokens 1 (isWordChar c) s'
          else String c (promoteTokens 0 (isWordChar c) s')
      end
  end.

Definition yearVariantAsWorded (dateTimeFormat : QString) : QString :=
  if contains dateTimeFormat "yyyy" then replace dateTimeFormat "yyyy" "yy"
  else if containsYearToken false dateTimeFormat then promoteTokens 0 false dateTimeFormat
  else dateTimeFormat.

(** "Strip any trailing UTC token": a text that ends with the label loses
    it there, any other text stays. *)
Definition stripTrailing (s label : QString) : QString :=
  if endsWith s label
  then substring 0 (String.length s - String.length label) s
  else s.

(** "Truncate to whole seconds s.  If s < 60 emit s second(s), otherwise
    split into m = s/60 and s mod 60": the numbers in the shape of the
    locale, the words chosen for each number on its own. *)
Definition formatElapsedAsWorded (localeNumber : Z -> nat -> bool -> QString)
    (elapsed : Z) : QString :=
  let s := Z.quot elapsed 1000 in
  let shaped i := localeNumber i 0%nat false in
  if (s <? 60)%Z then
    shaped s ++ " " ++ (if (s =? 1)%Z then "second" else "seconds")
  else
    let m := (s / 60)%Z in
    let s := (s mod 60)%Z in
    shaped m ++ " " ++ (if (m =? 1)%Z then "minute" else "minutes") ++ " " ++
    shaped s ++ " " ++ (if (s =? 1)%Z then "second" else "seconds").

(** "For every entry not already ending in a zone-abbreviation token, emit
    two additional entries: one with a separating space before the zone
    token, one without." *)
Definition zoneVariants (t : QString) : QStringList :=
  if endsWith t "t" then [] else [t ++ " t"; t ++ "t"].

(** "Locales: the system locale, then a fixed English locale.  Widths:
    short, long, narrow.  Year variant: for each pattern also a variant.
    Zone suffix: after the above set is built." *)
Definition catalogue {QLocale : Type} (system English : QLocale)
    (dateTimeFormat : QLocale -> FormatType -> QString) : QStringList :=
  let widths := [ShortFormat; LongFormat; NarrowFormat] in
  let ofLocale l :=
    (map (dateTimeFormat l) widths ++
     map (fun w => yearVariant (dateTimeFormat l w)) widths)%list in
  let built := (ofLocale system ++ ofLocale English)%list in
  (built ++ flat_map zoneVariants built)%list.

End Worded.

(** ** A small host, to run the definitions on *)

Module Sample.

(** Two locales with patterns in the style of Qt's German and US English
    ones. *)
Inductive Locale := German | USEnglish.

Definition dateTimeFormat (l : Locale) (f : FormatType) : QString :=
  match l, f with
  | German, LongFormat => "dddd, d. MMMM yyyy HH:mm:ss t"
  | German, _ => "dd.MM.yy HH:mm"
  | USEnglish, LongFormat => "dddd, MMMM d, yyyy h:mm:ss AP t"
  | USEnglish, _ => "M/d/yy h:mm AP"
  end.

(** A date and time is a count of seconds, or nothing. *)
Definition DateTime := option Z.

Definition isValid (d : DateTime) : bool :=
  match d with Some _ => true | None => false end.

Definition isNull (d : DateTime) : bool := negb (isValid d).

Definition setTimeSpecUTC (d : DateTime) : DateTime := d.

Definition setTime_t (secs : Z) (d : DateTime) : DateTime := Some secs.

(** The value of a decimal digit character. *)
Definition digitOf (c : ascii) : option Z :=
  match digitValue c with Some d => Some (Z.of_nat d) | None => None end.

(** A parser that knows one pattern, ["HH:mm"], and reads two digits, a
    colon and two digits under it. *)
Definition toDateTime (l : Locale) (text format : QString) : DateTime :=
  if negb (format =? "HH:mm") then None else
  match text with
  | String h1 (String h0 (String ":" (String m1 (String m0 "")))) =>
      match digitOf h1, digitOf h0, digitOf m1, digitOf m0 with
      | Some a, Some b, Some c, Some d =>
          let hours := (10 * a + b)%Z in
          let minutes := (10 * c + d)%Z in
          if ((hours <? 24) && (minutes <? 60))%Z
          then Some (hours * 3600 + minutes * 60)%Z
          else None
      | _, _, _, _ => None
      end
  | _ => None
  end.

(** The time of day of an instant, ["HH:mm:ss"]. *)
Definition clock (secs : Z) : QString :=
  cNumber ((secs / 3600) mod 24) 2 true ++ ":" ++
  cNumber ((secs / 60) mod 60) 2 true ++ ":" ++
  cNumber (secs mod 60) 2 true.

(** A rendering with the zone label behind the time, as a long pattern
    that ends in the zone token ([... HH:mm:ss t]) gives it. *)
Definition zoneLast (d : DateTime) (f : DateFormat) : QString :=
  match d, f with
  | None, _ => ""
  | Some secs, DefaultLocaleShortDate => clock secs
  | Some secs, DefaultLocaleLongDate => clock secs ++ " UTC"
  end.

(** A rendering with the zone label before the time, as a long pattern
    that has the zone token first ([t HH:mm:ss]) gives it. *)
Definition zoneFirst (d : DateTime) (f : DateFormat) : QString :=
  match d, f with
  | None, _ => ""
  | Some secs, DefaultLocaleShortDate => clock secs
  | Some secs, DefaultLocaleLongDate => "UTC " ++ clock secs
  end.

(** A coordinate parser that knows one position in two spellings. *)
Definition Pos := option (Z * Z).

Definition fromAnyFormat (text : QString) : Pos :=
  if (text =? "N48 07.2 E11 34.4") || (text =? "N 48 7.2' E 11 34.4'")
  then Some (48072, 11344)%Z
  else None.

Definition posIsValid (p : Pos) : bool :=
  match p with Some _ => true | None => false end.

Definition unitCoords (p : Pos) : QString :=
  match p with
  | Some _ => "N 48 7.2' E 11 34.4'"
  | None => ""
  end.

Definition errorMessage (text : QString) : QString :=
  "<span style='color: red'>" ++ text ++ "</span>".

End Sample.

(** ** Numbers with a unit and navigation names (lines 100-114, 155-158) *)

Section Units.

Variable tr : QString -> QString.

(** [QLocale().toString(value, 'f', precision)]; a [float] is widened to
    [double] (exactly) before it is rendered. *)
Variable localeDouble : Q -> Z -> QString.

Definition formatFloatUnit (value : Q) (unit : QString) (precision : Z) : QString :=
  if isEmpty unit then
    arg (tr "%L1") (localeDouble value precision)
  else
    arg (arg (tr "%L1 %2") (localeDouble value precision)) unit.

Definition formatDoubleUnit (value : Q) (unit : QString) (precision : Z) : QString :=
  if isEmpty unit then
    arg (tr "%L1") (localeDouble value precision)
  else
    arg (arg (tr "%L1 %2") (localeDouble value precision)) unit.

(** [atools::fs::util::capNavString]. *)
Variable atoolsCapNavString : QString -> QString.

Definition capNavString (str : QString) : QString := atoolsCapNavString str.

End Units.

(** Is every character of [s] whitespace? *)
Fixpoint onlySpace (s : QString) : bool :=
  match s with
  | "" => true
  | String c s' => isSpace c && onlySpace s'
  end.

(** ** More of the small host *)

Module SampleMore.

(** A locale whose patterns are a bare time of day. *)
Definition clockFormat (l : Sample.Locale) (f : FormatType) : QString :=
  match f with
  | LongFormat => "HH:mm t"
  | _ => "HH:mm"
  end.

(** Fixed-point rendering in the C locale: the value rounded to
    [precision] digits behind the point. *)
Definition fixedPoint (value : Q) (precision : Z) : QString :=
  let p := Z.to_nat precision in
  let scaled := roundToInt (value * inject_Z (10 ^ Z.of_nat p)) in
  let whole := (Z.abs scaled / 10 ^ Z.of_nat p)%Z in
  let part := (Z.abs scaled mod 10 ^ Z.of_nat p)%Z in
  (if (scaled <? 0)%Z then "-" else "") ++
  cNumber whole 0 false ++
  (if (p =? 0)%nat then "" else "." ++ cNumber part p true).

End SampleMore.

(** * Properties *)

(** ** Facts about the operations of [QString] *)

Lemma append_nil_r (s : QString) : s ++ "" = s.
Proof. induction s as [|c s IH]; simpl; [reflexivity | now rewrite IH]. Qed.

Lemma append_assoc (a b c : QString) : (a ++ b) ++ c = a ++ (b ++ c).
Proof. induction a as [|x a IH]; simpl; [reflexivity | now rewrite IH]. Qed.

Lemma length_append (a b : QString) :
  String.length (a ++ b) = (String.length a + String.length b)%nat.
Proof. induction a as [|x a IH]; simpl; [reflexivity | now rewrite IH]. Qed.

Lemma prefix_append (p r : QString) : prefix p (p ++ r) = true.
Proof.
  induction p as [|c p IH]; simpl.
  - now destruct r.
  - destruct (ascii_dec c c) as [_|ne]; [exact IH | now elim ne].
Qed.

Lemma prefix_split (p s : QString) : prefix p s = true -> exists r, s = p ++ r.
Proof.
  revert s; induction p as [|c p IH]; intros s H.
  - now exists s.
  - destruct s as [|d s]; simpl in H; [discriminate|].
    destruct (ascii_dec c d) as [->|]; [|discriminate].
    destruct (IH s H) as [r ->]. now exists r.
Qed.

Lemma contains_nil (sub : QString) : contains "" sub = prefix sub "".
Proof. cbn [contains]. apply orb_false_r. Qed.

Lemma contains_cons (c : ascii) (s sub : QString) :
  contains (String c s) sub = prefix sub (String c s) || contains s sub.
Proof. reflexivity. Qed.

(** [contains] finds exactly the texts that have [sub] somewhere. *)
Lemma contains_iff (s sub : QString) :
  contains s sub = true <-> exists l r, s = l ++ sub ++ r.
Proof.
  split.
  - induction s as [|c s IH]; intros H.
    + rewrite contains_nil in H. apply prefix_split in H as [r E].
      now exists "", r.
    + rewrite contains_cons in H. apply orb_true_iff in H as [H|H].
      * apply prefix_split in H as [r E]. now exists "", r.
      * destruct (IH H) as (l & r & ->). now exists (String c l), r.
  - intros (l & r & ->). induction l as [|c l IH].
    + change ("" ++ sub ++ r) with (sub ++ r).
      destruct (sub ++ r) eqn:E.
      * rewrite contains_nil, <- E. apply prefix_append.
      * rewrite contains_cons, <- E, prefix_append. reflexivity.
    + change (String c l ++ sub ++ r) with (String c (l ++ sub ++ r)).
      rewrite contains_cons, IH. apply orb_true_r.
Qed.

Lemma endsWith_nil (sub : QString) : endsWith "" sub = ("" =? sub).
Proof. cbn [endsWith]. apply orb_false_r. Qed.

Lemma endsWith_cons (c : ascii) (s sub : QString) :
  endsWith (String c s) sub = (String c s =? sub) || endsWith s sub.
Proof. reflexivity. Qed.

(** [endsWith] finds exactly the texts that have [sub] at their end. *)
Lemma endsWith_iff (s sub : QString) :
  endsWith s sub = true <-> exists l, s = l ++ sub.
Proof.
  split.
  - induction s as [|c s IH]; intros H.
    + rewrite endsWith_nil in H. apply String.eqb_eq in H as <-. now exists "".
    + rewrite endsWith_cons in H. apply orb_true_iff in H as [H|H].
      * apply String.eqb_eq in H as <-. now exists "".
      * destruct (IH H) as (l & ->). now exists (String c l).
  - intros (l & ->). induction l as [|c l IH].
    + change ("" ++ sub) with sub. destruct sub.
      * reflexivity.
      * rewrite endsWith_cons, String.eqb_refl. reflexivity.
    + change (String c l ++ sub) with (String c (l ++ sub)).
      rewrite endsWith_cons, IH. apply orb_true_r.
Qed.

(** A text without [before] is left as it is. *)
Lemma replace_from_absent (s before after : QString) :
  contains s before = false -> replace_from 0 s before after = s.
Proof.
  induction s as [|c s IH]; intros H; [reflexivity|].
  rewrite contains_cons in H. apply orb_false_iff in H as [H1 H2].
  cbn [replace_from]. rewrite H1. now rewrite (IH H2).
Qed.

(** The characters still to be dropped are dropped. *)
Lemma replace_from_skip (m r before after : QString) :
  replace_from (String.length m) (m ++ r) before after =
  replace_from 0 r before after.
Proof. induction m as [|c m IH]; simpl; [reflexivity | exact IH]. Qed.

(** At a match, [after] is written and the scan goes on behind it. *)
Lemma replace_from_match (c : ascii) (m r after : QString) :
  replace_from 0 (String c m ++ r) (String c m) after =
  after ++ replace_from 0 r (String c m) after.
Proof.
  change (String c m ++ r) with (String c (m ++ r)).
  cbn [replace_from].
  change (String c (m ++ r)) with (String c m ++ r).
  rewrite prefix_append.
  replace (String.length (String c m) - 1)%nat with (String.length m)
    by (cbn [String.length]; lia).
  now rewrite replace_from_skip.
Qed.

(** Before the first place where [before] can start, the text is copied. *)
Lemma replace_from_copy (l r before after : QString) :
  (forall l1 l2, l = l1 ++ l2 -> l2 <> "" -> prefix before (l2 ++ r) = false) ->
  replace_from 0 (l ++ r) before after = l ++ replace_from 0 r before after.
Proof.
  induction l as [|c l IH]; intros H; [reflexivity|].
  change (String c l ++ r) with (String c (l ++ r)).
  cbn [replace_from].
  assert (E : prefix before (String c (l ++ r)) = false)
    by (apply (H "" (String c l)); [reflexivity | discriminate]).
  rewrite E. simpl. f_equal. apply IH.
  intros l1 l2 -> Hne. apply (H (String c l1) l2); [reflexivity | exact Hne].
Qed.

Lemma hasChar_append (c : ascii) (a b : QString) :
  hasChar c (a ++ b) = hasChar c a || hasChar c b.
Proof.
  induction a as [|d a IH]; simpl; [reflexivity|].
  now rewrite IH, orb_assoc.
Qed.

(** A text that starts with another character does not start with a text
    that starts with [c]. *)
Lemma prefix_other_head (c : ascii) (m l r : QString) :
  l <> "" -> hasChar c l = false -> prefix (String c m) (l ++ r) = false.
Proof.
  destruct l as [|d l]; intros Hne H; [now elim Hne|].
  simpl in H. apply orb_false_iff in H as [H _].
  apply Ascii.eqb_neq in H. simpl.
  destruct (ascii_dec c d) as [->|]; [now elim H | reflexivity].
Qed.

Lemma hasChar_no_contains (c : ascii) (m s : QString) :
  hasChar c s = false -> contains s (String c m) = false.
Proof.
  induction s as [|d s IH]; intros H; [reflexivity|].
  rewrite contains_cons.
  replace (prefix (String c m) (String d s)) with false.
  - simpl in H. apply orb_false_iff in H as [_ H]. now rewrite (IH H).
  - symmetry. rewrite <- (append_nil_r (String d s)).
    apply prefix_other_head; [discriminate | exact H].
Qed.

(** Characters other than [c] in front do not matter to a search for a
    text that starts with [c]. *)
Lemma contains_skip_free (c : ascii) (m l t : QString) :
  hasChar c l = false -> contains (l ++ t) (String c m) = contains t (String c m).
Proof.
  induction l as [|d l IH]; intros H; [reflexivity|].
  change (String d l ++ t) with (String d (l ++ t)).
  rewrite contains_cons.
  change (String d (l ++ t)) with (String d l ++ t).
  rewrite prefix_other_head by (discriminate || exact H).
  simpl in H. apply orb_false_iff in H as [_ H]. now rewrite (IH H).
Qed.

(** A stretch without [c] is copied by the replacement of a text that
    starts with [c]. *)
Lemma replace_from_free (c : ascii) (m l r after : QString) :
  hasChar c l = false ->
  replace_from 0 (l ++ r) (String c m) after =
  l ++ replace_from 0 r (String c m) after.
Proof.
  intros H. apply replace_from_copy. intros l1 l2 -> Hne.
  apply prefix_other_head; [exact Hne|].
  rewrite hasChar_append in H. now apply orb_false_iff in H as [_ H].
Qed.

Lemma replace_from_free_all (c : ascii) (m r after : QString) :
  hasChar c r = false -> replace_from 0 r (String c m) after = r.
Proof.
  intros H. apply replace_from_absent. now apply hasChar_no_contains.
Qed.

(** ** The year token between word boundaries *)

Lemma containsYearToken_nil (p : bool) : containsYearToken p "" = false.
Proof. reflexivity. Qed.

Lemma containsYearToken_cons (p : bool) (c : ascii) (s : QString) :
  containsYearToken p (String c s) =
  yyTokenHere p (String c s) || containsYearToken (isWordChar c) s.
Proof. reflexivity. Qed.

Lemma yyTokenHere_iff (p : bool) (s : QString) :
  yyTokenHere p s = true <->
  exists r, s = "yy" ++ r /\ p = false /\ startsWord r = false.
Proof.
  split.
  - destruct s as [|a [|b r]]; simpl; try discriminate.
    intros H. repeat (apply andb_true_iff in H as [H ?]).
    apply Ascii.eqb_eq in H as ->.
    match goal with E : (b =? _)%char = true |- _ => apply Ascii.eqb_eq in E as -> end.
    exists r. repeat split.
    + now destruct p.
    + now destruct (startsWord r).
  - intros (r & -> & -> & E). simpl. now rewrite E.
Qed.

Lemma containsYearToken_iff (p : bool) (s : QString) :
  containsYearToken p s = true <->
  exists l r, s = l ++ "yy" ++ r /\ endsWord_from p l = false /\ startsWord r = false.
Proof.
  split.
  - revert p. induction s as [|c s IH]; intros p H; [discriminate|].
    rewrite containsYearToken_cons in H. apply orb_true_iff in H as [H|H].
    + apply yyTokenHere_iff in H as (r & E & -> & Hr).
      exists "", r. now rewrite E.
    + destruct (IH _ H) as (l & r & -> & Hl & Hr).
      exists (String c l), r. now repeat split.
  - intros (l & r & -> & Hl & Hr). revert p Hl.
    induction l as [|c l IH]; intros p Hl.
    + simpl in Hl. subst p.
      change ("" ++ "yy" ++ r) with (String "y" (String "y" r)).
      rewrite containsYearToken_cons.
      assert (E : yyTokenHere false (String "y" (String "y" r)) = true)
        by (apply yyTokenHere_iff; now exists r).
      now rewrite E.
    + change (String c l ++ "yy" ++ r) with (String c (l ++ "yy" ++ r)).
      rewrite containsYearToken_cons, (IH _ Hl). apply orb_true_r.
Qed.

Lemma containsYearToken_yearTokenIn (s : QString) :
  containsYearToken false s = true <-> yearTokenIn s.
Proof. apply containsYearToken_iff. Qed.

Lemma prefix_cons (c : ascii) (p s : QString) :
  prefix (String c p) (String c s) = prefix p s.
Proof. simpl. destruct (ascii_dec c c) as [_|ne]; [reflexivity | now elim ne]. Qed.

Lemma prefix_free (c : ascii) (m r : QString) :
  hasChar c r = false -> prefix (String c m) r = false.
Proof.
  intros H. destruct r as [|d r]; [reflexivity|].
  rewrite <- (append_nil_r (String d r)).
  apply prefix_other_head; [discriminate | exact H].
Qed.

(** Behind two ["y"] and a text without ["y"] there is no ["yyyy"]. *)
Lemma contains_yyyy_after_yy (r : QString) :
  hasChar "y" r = false -> contains ("yy" ++ r) "yyyy" = false.
Proof.
  intros H.
  change ("yy" ++ r) with (String "y" (String "y" r)).
  rewrite !contains_cons, (hasChar_no_contains _ _ _ H).
  change "yyyy" with (String "y" (String "y" "yy")).
  rewrite !prefix_cons.
  now rewrite !prefix_free by exact H.
Qed.

(** ** Facts about place markers *)

Lemma length_fillChars (n : nat) (f : ascii) : String.length (fillChars n f) = n.
Proof. induction n as [|n IH]; simpl; [reflexivity | now rewrite IH]. Qed.

(** An argument as wide as the field is not padded. *)
Lemma padLeft_fits (w : nat) (f : ascii) (a : QString) :
  (w <= String.length a)%nat -> padLeft w f a = a.
Proof.
  intros H. unfold padLeft.
  replace (w - String.length a)%nat with 0%nat by lia. reflexivity.
Qed.

Lemma padLeft_0 (f : ascii) (a : QString) : padLeft 0 f a = a.
Proof. apply padLeft_fits. lia. Qed.

(** A zero-padded number fills its field. *)
Lemma length_cNumber_padded (l : Z) (w : nat) :
  (w <= String.length (cNumber l w true))%nat.
Proof.
  unfold cNumber. rewrite !length_append, length_fillChars. lia.
Qed.

Lemma padLeft_cNumber (l : Z) (w : nat) (f : ascii) :
  padLeft w f (cNumber l w true) = cNumber l w true.
Proof. apply padLeft_fits, length_cNumber_padded. Qed.

Lemma hasChar_fillChars (c f : ascii) (n : nat) :
  (f =? c)%char = false -> hasChar c (fillChars n f) = false.
Proof. intros H. induction n as [|n IH]; simpl; [reflexivity | now rewrite H]. Qed.

Lemma hasChar_string_of_uint (d : Decimal.uint) :
  hasChar "%" (NilEmpty.string_of_uint d) = false.
Proof. induction d; simpl; try reflexivity; exact IHd. Qed.

(** The rendering of a number in the C locale has no per cent sign. *)
Lemma cNumber_plain (i : Z) (w : nat) (zeroPadded : bool) :
  hasChar "%" (cNumber i w zeroPadded) = false.
Proof.
  unfold cNumber, digits. rewrite !hasChar_append.
  assert (D : forall d, hasChar "%" (NilZero.string_of_uint d) = false)
    by (intros d; destruct d; try reflexivity; apply hasChar_string_of_uint).
  rewrite D. destruct zeroPadded.
  - rewrite hasChar_fillChars by reflexivity. now destruct (i <? 0)%Z.
  - now destruct (i <? 0)%Z.
Qed.

Lemma pieces_cons_plain (c : ascii) (r : QString) :
  (c =? "%")%char = false -> pieces (String c r) = Lit c :: pieces r.
Proof. intros H. cbn [pieces]. now rewrite H. Qed.

(** A text without a per cent sign in front of a template is copied. *)
Lemma pieces_plain (p s : QString) :
  hasChar "%" p = false -> pieces (p ++ s) = (lits p ++ pieces s)%list.
Proof.
  induction p as [|c p IH]; intros H; [reflexivity|].
  simpl in H. apply orb_false_iff in H as [Hc Hp].
  change (String c p ++ s) with (String c (p ++ s)).
  rewrite (pieces_cons_plain _ _ Hc), (IH Hp). reflexivity.
Qed.

Lemma lowest_lits (p : QString) (ps : list piece) :
  lowest (lits p ++ ps) = lowest ps.
Proof. induction p as [|c p IH]; simpl; [reflexivity | exact IH]. Qed.

Lemma fill_lits (m w : nat) (f : ascii) (a la p : QString) (ps : list piece) :
  fill m w f a la (lits p ++ ps) = p ++ fill m w f a la ps.
Proof. induction p as [|c p IH]; simpl; [reflexivity | now rewrite IH]. Qed.

Lemma argWith_plain (p s : QString) (w : nat) (f : ascii) (a la : QString) :
  hasChar "%" p = false ->
  argWith (p ++ s) w f a la = p ++ argWith s w f a la.
Proof.
  intros H. unfold argWith. rewrite (pieces_plain _ _ H), lowest_lits.
  destruct (lowest (pieces s)); [apply fill_lits | reflexivity].
Qed.

(** The same with one more plain character before the template. *)
Lemma argWith_behind (p : QString) (c : ascii) (s : QString) (w : nat)
    (f : ascii) (a la : QString) :
  hasChar "%" p = false -> (c =? "%")%char = false ->
  argWith (p ++ String c s) w f a la = p ++ String c (argWith s w f a la).
Proof.
  intros Hp Hc.
  change (p ++ String c s) with (p ++ String c "" ++ s).
  rewrite <- append_assoc, argWith_plain, append_assoc; [reflexivity|].
  rewrite hasChar_append, Hp. simpl. now rewrite Hc.
Qed.

(** A template is filled through its pieces. *)
Lemma argWith_pieces (s : QString) (ps : list piece) (m w : nat) (f : ascii)
    (a la : QString) :
  pieces s = ps -> lowest ps = Some m ->
  argWith s w f a la = fill m w f a la ps.
Proof. intros <- H. unfold argWith. now rewrite H. Qed.

(** Filling a template that is written out: its pieces are computed, the
    markers with the lowest number take the argument. *)
Ltac fill_template :=
  intros;
  erewrite argWith_pieces by (vm_compute; reflexivity);
  cbn [fill Nat.eqb];
  rewrite ?padLeft_0;
  cbn [String.append];
  rewrite ?append_nil_r;
  reflexivity.

Section Templates.

Variables (f : ascii) (a la : QString).



Lemma argWith_dhm : argWith "%1:%2:%3" 0 f a la = a ++ ":%2:%3".
Proof. fill_template. Qed.

Lemma argWith_d : argWith "%1 d" 0 f a la = a ++ " d".
Proof. fill_template. Qed.

Lemma argWith_h : argWith "%1 h" 0 f a la = a ++ " h".
Proof. fill_template. Qed.

Lemma argWith_m : argWith "%1 m" 0 f a la = a ++ " m".
Proof. fill_template. Qed.

Lemma argWith_h_padded (w : nat) :
  argWith " %1 h" w f a la = " " ++ padLeft w f a ++ " h".
Proof. fill_template. Qed.

Lemma argWith_m_padded (w : nat) :
  argWith " %1 m" w f a la = " " ++ padLeft w f a ++ " m".
Proof. fill_template. Qed.

Lemma argWith_L1_2 : argWith "%L1 %2" 0 f a la = la ++ " %2".
Proof. fill_template. Qed.

Lemma argWith_L1_2_L3_4 : argWith "%L1 %2 %L3 %4" 0 f a la = la ++ " %2 %L3 %4".
Proof. fill_template. Qed.



Lemma argWith_2_3_padded (w : nat) : argWith "%2:%3" w f a la = padLeft w f a ++ ":%3".
Proof. fill_template. Qed.

Lemma argWith_3_padded (w : nat) : argWith "%3" w f a la = padLeft w f a.
Proof. fill_template. Qed.

Lemma argWith_2 : argWith "%2" 0 f a la = a.
Proof. fill_template. Qed.

Lemma argWith_2_L3_4 : argWith "%2 %L3 %4" 0 f a la = a ++ " %L3 %4".
Proof. fill_template. Qed.

Lemma argWith_L3_4 : argWith "%L3 %4" 0 f a la = la ++ " %4".
Proof. fill_template. Qed.

Lemma argWith_4 : argWith "%4" 0 f a la = a.
Proof. fill_template. Qed.

Lemma argWith_coordinates :
  argWith "Coordinates are valid: %1" 0 f a la = "Coordinates are valid: " ++ a.
Proof. fill_template. Qed.

End Templates.

(** ** Facts about the numbers *)

Lemma Qfloor_bounds (x : Q) (a b : Z) :
  (inject_Z a <= x)%Q -> (x < inject_Z b)%Q -> (a <= Qfloor x < b)%Z.
Proof.
  intros Ha Hb. split.
  - rewrite <- (Qfloor_Z a). now apply Qfloor_resp_le.
  - rewrite Zlt_Qlt. eapply Qle_lt_trans; [apply Qfloor_le | exact Hb].
Qed.

(** The conversion to [int] gives back an integer. *)
Lemma static_cast_int_Z (k : Z) : static_cast_int (inject_Z k) = k.
Proof.
  unfold static_cast_int.
  destruct (Qle_bool 0 (inject_Z k)); [apply Qfloor_Z | apply Qceiling_Z].
Qed.

Lemma roundToInt_nonneg (x : Q) :
  (0 <= x)%Q -> roundToInt x = Qfloor (x + (1 # 2)).
Proof.
  intros H. unfold roundToInt, round.
  apply Qle_bool_iff in H. rewrite H. apply static_cast_int_Z.
Qed.

Lemma static_cast_int_nonneg (x : Q) :
  (0 <= x)%Q -> static_cast_int x = Qfloor x.
Proof.
  intros H. unfold static_cast_int. apply Qle_bool_iff in H. now rewrite H.
Qed.

Lemma unroundedMinutes_range (time : Q) :
  (0 <= unroundedMinutes time)%Q /\ (unroundedMinutes time < 60 # 1)%Q.
Proof.
  unfold unroundedMinutes, floor.
  pose proof (Qfloor_le time) as L. pose proof (Qlt_floor time) as U.
  rewrite inject_Z_plus in U. change (inject_Z 1) with 1%Q in U.
  split; lra.
Qed.

(** Rounding gives 60 exactly from 59.5 on. *)
Lemma rounded_minutes (time : Q) :
  let m := roundToInt (unroundedMinutes time) in
  (0 <= m <= 60)%Z /\
  ((119 # 2 <= unroundedMinutes time)%Q -> m = 60%Z) /\
  ((unroundedMinutes time < 119 # 2)%Q -> (m <= 59)%Z).
Proof.
  intros m. destruct (unroundedMinutes_range time) as [L U].
  unfold m. rewrite (roundToInt_nonneg _ L).
  split; [|split].
  - assert (B : (0 <= Qfloor (unroundedMinutes time + (1 # 2)) < 61)%Z)
      by (apply Qfloor_bounds; change (inject_Z 0) with 0%Q;
          change (inject_Z 61) with (61 # 1)%Q; lra).
    lia.
  - intros H.
    assert (B : (60 <= Qfloor (unroundedMinutes time + (1 # 2)) < 61)%Z)
      by (apply Qfloor_bounds; change (inject_Z 60) with (60 # 1)%Q;
          change (inject_Z 61) with (61 # 1)%Q; lra).
    lia.
  - intros H.
    assert (B : (0 <= Qfloor (unroundedMinutes time + (1 # 2)) < 60)%Z)
      by (apply Qfloor_bounds; change (inject_Z 0) with 0%Q;
          change (inject_Z 60) with (60 # 1)%Q; lra).
    lia.
Qed.

(** The two formatters of hours and minutes carry: for a time that is not
    negative the minutes are between 0 and 59, and the hours are one more
    than the whole hours exactly when the minutes round up to 60. *)
Lemma hoursMinutes_carry (time : Q) :
  (0 <= time)%Q ->
  let '(hours, minutes) := hoursMinutes time in
  (0 <= minutes <= 59)%Z /\
  ((119 # 2 <= unroundedMinutes time)%Q ->
     hours = (Qfloor time + 1)%Z /\ minutes = 0%Z) /\
  ((unroundedMinutes time < 119 # 2)%Q ->
     hours = Qfloor time /\ minutes = roundToInt (unroundedMinutes time)).
Proof.
  intros H0. unfold hoursMinutes.
  rewrite (static_cast_int_nonneg _ H0).
  change ((time - inject_Z (Qfloor time)) * (60 # 1))%Q with (unroundedMinutes time).
  destruct (rounded_minutes time) as (B & Hi & Lo). cbv zeta in *.
  destruct (Z.eqb_spec (roundToInt (unroundedMinutes time)) 60) as [E|N].
  - split; [lia|]. split; [now intros _|].
    intros H. specialize (Lo H). lia.
  - split; [lia|]. split; [|now intros _].
    intros H. specialize (Hi H). lia.
Qed.

(** The two formatters with days do not carry: for a time that is not
    negative the days and hours are those of the whole hours, and the
    minutes are 60 from 59.5 unrounded minutes on. *)
Lemma daysHoursMinutes_no_carry (time : Q) :
  (0 <= time)%Q ->
  let '(days, hours, minutes) := daysHoursMinutes time in
  days = (Qfloor time / 24)%Z /\ hours = (Qfloor time mod 24)%Z /\
  (0 <= days)%Z /\ (0 <= hours < 24)%Z /\ (0 <= minutes <= 60)%Z /\
  ((119 # 2 <= unroundedMinutes time)%Q -> minutes = 60%Z).
Proof.
  intros H0. unfold daysHoursMinutes.
  rewrite (static_cast_int_nonneg _ H0).
  change ((time - floor time) * (60 # 1))%Q with (unroundedMinutes time).
  assert (F : (0 <= Qfloor time)%Z).
  { rewrite <- (Qfloor_Z 0). now apply Qfloor_resp_le. }
  rewrite (Z.quot_div_nonneg _ 24 F) by lia.
  destruct (rounded_minutes time) as (B & Hi & _). cbv zeta in *.
  pose proof (Z.mod_pos_bound (Qfloor time) 24 ltac:(lia)) as M.
  pose proof (Z.div_pos (Qfloor time) 24 F ltac:(lia)) as D.
  pose proof (Z.div_mod (Qfloor time) 24 ltac:(lia)) as DM.
  repeat split; try lia. exact Hi.
Qed.

(** ** The year variant *)

Lemma not_occursIn_contains (sub s : QString) :
  ~ occursIn sub s -> contains s sub = false.
Proof.
  intros H. destruct (contains s sub) eqn:E; [|reflexivity].
  elim H. now apply contains_iff.
Qed.

Lemma not_yearTokenIn_contains (s : QString) :
  ~ yearTokenIn s -> containsYearToken false s = false.
Proof.
  intros H. destruct (containsYearToken false s) eqn:E; [|reflexivity].
  elim H. now apply containsYearToken_yearTokenIn.
Qed.

(** One four-digit year among characters other than ["y"] is demoted. *)
Lemma replace_one_yyyy (l r : QString) :
  hasChar "y" l = false -> hasChar "y" r = false ->
  replace (l ++ "yyyy" ++ r) "yyyy" "yy" = l ++ "yy" ++ r.
Proof.
  intros Hl Hr. unfold replace.
  rewrite (replace_from_free "y" "yyy" l _ _ Hl).
  rewrite (replace_from_match "y" "yyy" r "yy").
  now rewrite (replace_from_free_all "y" "yyy" r _ Hr).
Qed.

(** One ["yy"] among characters other than ["y"] is promoted. *)
Lemma replace_one_yy (l r : QString) :
  hasChar "y" l = false -> hasChar "y" r = false ->
  replace (l ++ "yy" ++ r) "yy" "yyyy" = l ++ "yyyy" ++ r.
Proof.
  intros Hl Hr. unfold replace.
  rewrite (replace_from_free "y" "y" l _ _ Hl).
  rewrite (replace_from_match "y" "y" r "yyyy").
  now rewrite (replace_from_free_all "y" "y" r _ Hr).
Qed.

(** Two ["yy"] apart are both promoted. *)
Lemma replace_two_yy (l m r : QString) :
  hasChar "y" l = false -> hasChar "y" m = false -> hasChar "y" r = false ->
  replace (l ++ "yy" ++ m ++ "yy" ++ r) "yy" "yyyy" =
  l ++ "yyyy" ++ m ++ "yyyy" ++ r.
Proof.
  intros Hl Hm Hr. unfold replace.
  rewrite (replace_from_free "y" "y" l _ _ Hl).
  rewrite (replace_from_match "y" "y" _ "yyyy").
  rewrite (replace_from_free "y" "y" m _ _ Hm).
  rewrite (replace_from_match "y" "y" r "yyyy").
  now rewrite (replace_from_free_all "y" "y" r _ Hr).
Qed.

Lemma contains_yyyy_one_yy (l r : QString) :
  hasChar "y" l = false -> hasChar "y" r = false ->
  contains (l ++ "yy" ++ r) "yyyy" = false.
Proof.
  intros Hl Hr.
  rewrite (contains_skip_free "y" "yyy" l _ Hl).
  now apply contains_yyyy_after_yy.
Qed.

Lemma contains_yyyy_two_yy (l m r : QString) :
  hasChar "y" l = false -> hasChar "y" m = false -> hasChar "y" r = false ->
  m <> "" ->
  contains (l ++ "yy" ++ m ++ "yy" ++ r) "yyyy" = false.
Proof.
  intros Hl Hm Hr Hne.
  rewrite (contains_skip_free "y" "yyy" l _ Hl).
  change ("yy" ++ m ++ "yy" ++ r) with (String "y" (String "y" (m ++ "yy" ++ r))).
  rewrite !contains_cons.
  change "yyyy" with (String "y" (String "y" "yy")).
  rewrite !prefix_cons.
  rewrite !prefix_other_head by assumption.
  change (String "y" (String "y" "yy")) with "yyyy".
  rewrite (contains_skip_free "y" "yyy" m _ Hm).
  now rewrite contains_yyyy_after_yy.
Qed.

Lemma startsWord_append (m t : QString) :
  m <> "" -> startsWord (m ++ t) = startsWord m.
Proof. destruct m; [intros H; now elim H | reflexivity]. Qed.

(** C4, as the code has it.  A pattern in which ["yyyy"] occurs comes back
    with every ["yyyy"] replaced by ["yy"].  Otherwise, a pattern in which
    ["yy"] stands between two word boundaries comes back with every
    ["yy"] replaced by ["yyyy"], at a word boundary or not.  Any other
    pattern comes back unchanged.  For a pattern with one year token among
    characters other than ["y"] this is that token demoted or promoted; of
    two ["yy"] tokens both are promoted as soon as one of them stands
    between word boundaries. *)
Theorem yearVariant_cases : forall s : QString,
  (occursIn "yyyy" s -> yearVariant s = replace s "yyyy" "yy") /\
  (~ occursIn "yyyy" s -> yearTokenIn s -> yearVariant s = replace s "yy" "yyyy") /\
  (~ occursIn "yyyy" s -> ~ yearTokenIn s -> yearVariant s = s) /\
  (forall l r, s = l ++ "yyyy" ++ r ->
     hasChar "y" l = false -> hasChar "y" r = false ->
     yearVariant s = l ++ "yy" ++ r) /\
  (forall l r, s = l ++ "yy" ++ r ->
     hasChar "y" l = false -> hasChar "y" r = false ->
     endsWord l = false -> startsWord r = false ->
     yearVariant s = l ++ "yyyy" ++ r) /\
  (forall l m r, s = l ++ "yy" ++ m ++ "yy" ++ r ->
     hasChar "y" l = false -> hasChar "y" m = false -> hasChar "y" r = false ->
     m <> "" ->
     (endsWord l = false /\ startsWord m = false) \/
     (endsWord (l ++ "yy" ++ m) = false /\ startsWord r = false) ->
     yearVariant s = l ++ "yyyy" ++ m ++ "yyyy" ++ r).
Proof.
  intros s. unfold yearVariant. repeat split.
  - intros H. apply contains_iff in H. now rewrite H.
  - intros H1 H2. rewrite (not_occursIn_contains _ _ H1).
    apply containsYearToken_yearTokenIn in H2. now rewrite H2.
  - intros H1 H2. rewrite (not_occursIn_contains _ _ H1).
    now rewrite (not_yearTokenIn_contains _ H2).
  - intros l r -> Hl Hr.
    assert (E : contains (l ++ "yyyy" ++ r) "yyyy" = true)
      by (apply contains_iff; now exists l, r).
    rewrite E. now apply replace_one_yyyy.
  - intros l r -> Hl Hr Bl Br.
    rewrite (contains_yyyy_one_yy l r Hl Hr).
    assert (E : containsYearToken false (l ++ "yy" ++ r) = true)
      by (apply containsYearToken_yearTokenIn; now exists l, r).
    rewrite E. now apply replace_one_yy.
  - intros l m r -> Hl Hm Hr Hne B.
    rewrite (contains_yyyy_two_yy l m r Hl Hm Hr Hne).
    assert (E : containsYearToken false (l ++ "yy" ++ m ++ "yy" ++ r) = true).
    { apply containsYearToken_yearTokenIn. destruct B as [[Bl Bm]|[Bl Br]].
      - exists l, (m ++ "yy" ++ r). repeat split; [exact Bl|].
        now rewrite startsWord_append.
      - exists (l ++ "yy" ++ m), r. repeat split; [|exact Bl|exact Br].
        now rewrite !append_assoc. }
    rewrite E. now apply replace_two_yy.
Qed.

(** The theorem at the pattern ["yy-MM-dd (yyMMdd)"]: the first ["yy"]
    stands between word boundaries, the second does not. *)
Lemma yearVariant_cases_witness :
  yearVariant "yy-MM-dd (yyMMdd)" = "yyyy-MM-dd (yyyyMMdd)".
Proof.
  apply (proj2 (proj2 (proj2 (proj2 (proj2
           (yearVariant_cases "yy-MM-dd (yyMMdd)")))))
           "" "-MM-dd (" "MMdd)").
  - reflexivity.
  - reflexivity.
  - reflexivity.
  - reflexivity.
  - discriminate.
  - left. split; reflexivity.
Defined.

(** C4, as the specification words it, fails at ["yy-MM-dd (yyMMdd)"]: the
    code promotes the second ["yy"] as well, which stands before a
    letter. *)
Lemma yearVariant_promotes_every_yy :
  yearVariant "yy-MM-dd (yyMMdd)" = "yyyy-MM-dd (yyyyMMdd)" /\
  Worded.yearVariantAsWorded "yy-MM-dd (yyMMdd)" = "yyyy-MM-dd (yyMMdd)" /\
  yearVariant "yy-MM-dd (yyMMdd)" <> Worded.yearVariantAsWorded "yy-MM-dd (yyMMdd)".
Proof. repeat split; try reflexivity. vm_compute. discriminate. Qed.

(** Patterns with one year token, and one with none between word
    boundaries. *)
Example yearVariant_examples :
  yearVariant "M/d/yy h:mm AP" = "M/d/yyyy h:mm AP" /\
  yearVariant "dd.MM.yyyy HH:mm" = "dd.MM.yy HH:mm" /\
  yearVariant "HH:mm:ss t" = "HH:mm:ss t" /\
  yearVariant "yyMMdd" = "yyMMdd".
Proof. repeat split; reflexivity. Qed.

(** ** The catalogue *)

Section CatalogueFacts.

Variable QLocale : Type.
Variables system English : QLocale.
Variable dateTimeFormat : QLocale -> FormatType -> QString.

Local Abbreviation init :=
  (initTranslateableTexts QLocale system English dateTimeFormat).

(** The loop over the copy appends, entry by entry, the zone variants of
    the entry. *)
Lemma addZoneVariants_flat_map (temp dateTimeFormats : QStringList) :
  addZoneVariants temp dateTimeFormats =
  (dateTimeFormats ++ flat_map Worded.zoneVariants temp)%list.
Proof.
  unfold addZoneVariants. revert dateTimeFormats.
  induction temp as [|t temp IH]; intros acc; simpl.
  - now rewrite app_nil_r.
  - rewrite IH. unfold Worded.zoneVariants at 2, append.
    destruct (endsWith t "t"); simpl.
    + reflexivity.
    + now rewrite <- !app_assoc.
Qed.

(** C2.  Whatever the static list held before, after the call it holds, in
    this order: the short, long and narrow pattern of the system locale,
    their three year variants, the short, long and narrow pattern of the
    English locale, their three year variants, and then, for every one of
    these twelve entries in turn that does not end in ["t"], the entry
    followed by [" t"] and the entry followed by ["t"].  The list is not
    empty: it has between 12 and 36 entries. *)
Theorem initTranslateableTexts_order : forall before : QStringList,
  let sys := dateTimeFormat system in
  let en := dateTimeFormat English in
  let built :=
    [ sys ShortFormat; sys LongFormat; sys NarrowFormat;
      yearVariant (sys ShortFormat); yearVariant (sys LongFormat);
      yearVariant (sys NarrowFormat);
      en ShortFormat; en LongFormat; en NarrowFormat;
      yearVariant (en ShortFormat); yearVariant (en LongFormat);
      yearVariant (en NarrowFormat) ] in
  init before =
    (built ++
     flat_map
       (fun t => if endsWith t "t" then [] else [(t ++ " t")%string; (t ++ "t")%string])
       built)%list /\
  init before = Worded.catalogue system English dateTimeFormat /\
  init before <> [] /\
  (12 <= List.length (init before) <= 36)%nat.
Proof.
  intros before sys en built.
  assert (E : init before = (built ++ flat_map Worded.zoneVariants built)%list).
  { unfold init, initTranslateableTexts. rewrite addZoneVariants_flat_map.
    reflexivity. }
  split; [exact E|]. split; [exact E|]. split.
  - rewrite E. discriminate.
  - rewrite E, length_app.
    assert (B : forall l, (List.length (flat_map Worded.zoneVariants l)
                           <= 2 * List.length l)%nat).
    { induction l as [|t l IH]; simpl; [lia|].
      rewrite length_app. unfold Worded.zoneVariants at 1.
      destruct (endsWith t "t"); simpl; lia. }
    specialize (B built). simpl List.length in *. lia.
Qed.

(** C10.  The call does not read what the static list held before: it
    clears it first.  So any number of calls in a row, for the same
    locales, leaves the list that one call leaves, of the same length. *)
Theorem initTranslateableTexts_idempotent : forall (n : nat) (before : QStringList),
  init (init before) = init before /\
  Nat.iter (S n) init before = init before /\
  Nat.iter (S n) init before = init [] /\
  List.length (Nat.iter (S n) init before) = List.length (init before).
Proof.
  assert (I : forall a b, init a = init b) by reflexivity.
  intros n before.
  assert (E : Nat.iter (S n) init before = init before)
    by (simpl; apply I).
  split; [apply I|]. split; [exact E|].
  split; [rewrite E; apply I | now rewrite E].
Qed.

End CatalogueFacts.

(** The catalogue of a machine whose system locale is German. *)
Example initTranslateableTexts_sample :
  initTranslateableTexts Sample.Locale Sample.German Sample.USEnglish
    Sample.dateTimeFormat ["left over"] =
  [ "dd.MM.yy HH:mm"; "dddd, d. MMMM yyyy HH:mm:ss t"; "dd.MM.yy HH:mm";
    "dd.MM.yyyy HH:mm"; "dddd, d. MMMM yy HH:mm:ss t"; "dd.MM.yyyy HH:mm";
    "M/d/yy h:mm AP"; "dddd, MMMM d, yyyy h:mm:ss AP t"; "M/d/yy h:mm AP";
    "M/d/yyyy h:mm AP"; "dddd, MMMM d, yy h:mm:ss AP t"; "M/d/yyyy h:mm AP";
    "dd.MM.yy HH:mm t"; "dd.MM.yy HH:mmt";
    "dd.MM.yy HH:mm t"; "dd.MM.yy HH:mmt";
    "dd.MM.yyyy HH:mm t"; "dd.MM.yyyy HH:mmt";
    "dd.MM.yyyy HH:mm t"; "dd.MM.yyyy HH:mmt";
    "M/d/yy h:mm AP t"; "M/d/yy h:mm APt";
    "M/d/yy h:mm AP t"; "M/d/yy h:mm APt";
    "M/d/yyyy h:mm AP t"; "M/d/yyyy h:mm APt";
    "M/d/yyyy h:mm AP t"; "M/d/yyyy h:mm APt" ].
Proof. reflexivity. Qed.

(** ** Normalisation of whitespace *)

Lemma splitWords_cons (cur s : QString) :
  cur <> "" -> exists w ws, Worded.splitWords cur s = w :: ws.
Proof.
  revert cur. induction s as [|c s IH]; intros cur Hne; simpl.
  - destruct cur; [now elim Hne | now eexists _, _].
  - destruct (isSpace c).
    + destruct cur; [now elim Hne | now eexists _, _].
    + apply IH. now destruct cur.
Qed.

(** The scan of [simplified] in each of its three states against the
    words that are still to come. *)
Lemma simplified_from_words (s : QString) :
  simplified_from AtStart s = String.concat " " (Worded.splitWords "" s) /\
  (forall cur, cur <> "" ->
     cur ++ simplified_from InWord s = String.concat " " (Worded.splitWords cur s)) /\
  simplified_from AfterGap s =
    match Worded.splitWords "" s with
    | [] => ""
    | ws => " " ++ String.concat " " ws
    end.
Proof.
  induction s as [|c s (IHa & IHb & IHc)].
  - repeat split. intros cur Hne. simpl.
    destruct cur; [now elim Hne | apply append_nil_r].
  - cbn [simplified_from Worded.splitWords isEmpty String.append].
    destruct (isSpace c) eqn:Sp.
    + split; [exact IHa|]. split; [|exact IHc].
      intros cur Hne. destruct cur as [|x cur]; [now elim Hne|].
      cbn [isEmpty]. rewrite IHc.
      destruct (Worded.splitWords "" s) as [|w ws] eqn:E.
      * simpl. now rewrite append_nil_r.
      * reflexivity.
    + split; [|split].
      * rewrite <- (IHb (String c "")) by discriminate. reflexivity.
      * intros cur Hne.
        rewrite <- (IHb (cur ++ String c "")) by (now destruct cur).
        now rewrite append_assoc.
      * destruct (splitWords_cons (String c "") s ltac:(discriminate))
          as (w & ws & E).
        rewrite E, <- E, <- (IHb (String c "")) by discriminate.
        reflexivity.
Qed.

(** [simplified] gives the words of the text with one space between two
    of them. *)
Lemma simplified_normalized (s : QString) : simplified s = Worded.normalized s.
Proof. apply simplified_from_words. Qed.

(** No whitespace is left inside a word and no word is empty. *)
Lemma splitWords_words (cur s : QString) :
  hasSpace cur = false ->
  Forall (fun w => w <> "" /\ hasSpace w = false) (Worded.splitWords cur s).
Proof.
  revert cur. induction s as [|c s IH]; intros cur Hc; simpl.
  - destruct cur; [constructor|]. constructor; [|constructor].
    split; [discriminate | exact Hc].
  - destruct (isSpace c) eqn:Sp.
    + destruct cur.
      * now apply IH.
      * constructor; [split; [discriminate | exact Hc] | now apply IH].
    + apply IH. clear IH. induction cur as [|x cur IHc]; simpl.
      * now rewrite Sp.
      * simpl in Hc. apply orb_false_iff in Hc as [Hx Hc].
        now rewrite Hx, (IHc Hc).
Qed.

(** ** The parser *)

Section ParserFacts.

Variable QLocale : Type.
Variable system : QLocale.
Variable QDateTime : Type.
Variable defaultDateTime : QDateTime.
Variable isValid : QDateTime -> bool.
Variable toDateTime : QLocale -> QString -> QString -> QDateTime.

(** Qt: a default-constructed [QDateTime] is null and not valid. *)
Hypothesis default_invalid : isValid defaultDateTime = false.

Local Abbreviation parse :=
  (readDateTime QLocale system QDateTime defaultDateTime isValid toDateTime).
Local Abbreviation try :=
  (tryFormats QLocale QDateTime isValid toDateTime system).

Lemma tryFormats_first (text : QString) (tried : QStringList) :
  forall (format : QString) (rest : QStringList) (retval : QDateTime),
  (forall f, In f tried -> isValid (toDateTime system text f) = false) ->
  isValid (toDateTime system text format) = true ->
  try text retval (tried ++ format :: rest)%list = toDateTime system text format.
Proof.
  induction tried as [|t tried IH]; intros format rest retval Hno Hyes; simpl.
  - now rewrite Hyes.
  - rewrite (Hno t) by now left. apply IH; [|exact Hyes].
    intros f Hf. apply Hno. now right.
Qed.

Lemma tryFormats_none (text : QString) (formats : QStringList) :
  forall retval : QDateTime,
  isValid retval = false ->
  (forall f, In f formats -> isValid (toDateTime system text f) = false) ->
  isValid (try text retval formats) = false.
Proof.
  induction formats as [|t formats IH]; intros retval Hr Hno; simpl.
  - exact Hr.
  - rewrite (Hno t) by now left. apply IH.
    + apply Hno. now left.
    + intros f Hf. apply Hno. now right.
Qed.

Lemma tryFormats_valid (text : QString) (formats : QStringList) :
  forall retval : QDateTime,
  isValid retval = false ->
  isValid (try text retval formats) = true ->
  exists tried format rest,
    formats = (tried ++ format :: rest)%list /\
    (forall f, In f tried -> isValid (toDateTime system text f) = false) /\
    isValid (toDateTime system text format) = true /\
    try text retval formats = toDateTime system text format.
Proof.
  induction formats as [|t formats IH]; intros retval Hr Hv; simpl in *.
  - congruence.
  - destruct (isValid (toDateTime system text t)) eqn:E.
    + exists [], t, formats. repeat split; [intros f []|exact E].
    + destruct (IH _ E Hv) as (tried & format & rest & -> & Hno & Hyes & Eq).
      exists (t :: tried), format, rest. repeat split; [|exact Hyes|exact Eq].
      intros f [<-|Hf]; [exact E | now apply Hno].
Qed.

(** C1.  The text is first normalised: its words, one space between two of
    them, no word empty and none with whitespace in it.  The patterns of
    the catalogue are then tried in their order
    under the system locale, and the result is what the first pattern
    that gives a valid date and time gives.  When no pattern of the
    catalogue gives a valid one, the result is not valid; so it is for the
    empty text and for one space, which both normalise to the empty text,
    as soon as the locale reads no date out of the empty text.  With an
    empty catalogue (initialisation not called) the result is the
    default-constructed, invalid value.  The function is total. *)
Theorem readDateTime_first_valid : forall (formats : QStringList) (str : QString),
  let text := simplified str in
  text = Worded.normalized str /\
  Forall (fun w => w <> "" /\ hasSpace w = false) (Worded.words str) /\
  (forall tried format rest,
     formats = (tried ++ format :: rest)%list ->
     (forall f, In f tried -> isValid (toDateTime system text f) = false) ->
     isValid (toDateTime system text format) = true ->
     parse formats str = toDateTime system text format) /\
  (isValid (parse formats str) = true ->
     exists tried format rest,
       formats = (tried ++ format :: rest)%list /\
       (forall f, In f tried -> isValid (toDateTime system text f) = false) /\
       isValid (toDateTime system text format) = true /\
       parse formats str = toDateTime system text format) /\
  ((forall f, In f formats -> isValid (toDateTime system text f) = false) ->
     isValid (parse formats str) = false) /\
  (parse [] str = defaultDateTime /\ isValid (parse [] str) = false) /\
  (simplified "" = "" /\ simplified " " = "") /\
  ((forall f, In f formats -> isValid (toDateTime system "" f) = false) ->
     isValid (parse formats "") = false /\ isValid (parse formats " ") = false).
Proof.
  intros formats str text. unfold readDateTime. fold text.
  split; [apply simplified_normalized|].
  split; [now apply splitWords_words|].
  split; [intros tried format rest -> Hno Hyes; now apply tryFormats_first|].
  split; [intros Hv; now apply tryFormats_valid|].
  split; [intros Hno; now apply tryFormats_none|].
  split; [split; [reflexivity | exact default_invalid]|].
  split; [split; reflexivity|].
  intros Hno. split; now apply tryFormats_none.
Qed.

End ParserFacts.

(** The theorem on the sample parser: the German short pattern does not
    read ["12:30"], the pattern ["HH:mm"] behind it does; nothing reads
    ["soon"]. *)
Lemma readDateTime_first_valid_witness :
  Sample.isValid None = false /\
  readDateTime Sample.Locale Sample.German Sample.DateTime None Sample.isValid
    Sample.toDateTime ["dd.MM.yy HH:mm"; "HH:mm"; "HH:mm t"] "  12:30 "
  = Some 45000%Z /\
  Sample.isValid
    (readDateTime Sample.Locale Sample.German Sample.DateTime None Sample.isValid
       Sample.toDateTime ["dd.MM.yy HH:mm"; "HH:mm"; "HH:mm t"] " soon") = false.
Proof.
  split; [reflexivity|]. split.
  - apply (proj1 (proj2 (proj2
      (readDateTime_first_valid Sample.Locale Sample.German Sample.DateTime None
         Sample.isValid Sample.toDateTime eq_refl
         ["dd.MM.yy HH:mm"; "HH:mm"; "HH:mm t"] "  12:30 ")))
      ["dd.MM.yy HH:mm"] "HH:mm" ["HH:mm t"]).
    + reflexivity.
    + intros f [<-|[]]. reflexivity.
    + reflexivity.
  - apply (proj1 (proj2 (proj2 (proj2 (proj2
      (readDateTime_first_valid Sample.Locale Sample.German Sample.DateTime None
         Sample.isValid Sample.toDateTime eq_refl
         ["dd.MM.yy HH:mm"; "HH:mm"; "HH:mm t"] " soon")))))).
    intros f [<-|[<-|[<-|[]]]]; reflexivity.
Defined.

(** ** Dates *)

Lemma contains_suffix (l1 l2 sub : QString) :
  contains (l1 ++ l2) sub = false -> contains l2 sub = false.
Proof.
  intros H. destruct (contains l2 sub) eqn:E; [|reflexivity].
  apply contains_iff in E as (l & r & ->).
  assert (C : contains (l1 ++ l ++ sub ++ r) sub = true)
    by (apply contains_iff; exists (l1 ++ l), r; now rewrite append_assoc).
  congruence.
Qed.

Lemma not_contains_not_endsWith (l sub : QString) :
  contains l sub = false -> endsWith l sub = false.
Proof.
  intros H. destruct (endsWith l sub) eqn:E; [|reflexivity].
  apply endsWith_iff in E as (l0 & ->).
  assert (C : contains (l0 ++ sub) sub = true)
    by (apply contains_iff; exists l0, ""; now rewrite append_nil_r).
  congruence.
Qed.

Lemma prefix_head_ne (c d : ascii) (p s : QString) :
  c <> d -> prefix (String c p) (String d s) = false.
Proof.
  intros H. simpl. destruct (ascii_dec c d) as [E|_]; [now elim H | reflexivity].
Qed.

(** The label ["UTC"] cannot start in a text that does not hold it and end
    in a ["UTC"] put behind that text: it has no proper prefix that is
    also a suffix of it. *)
Lemma prefix_UTC_straddle (l2 r : QString) :
  l2 <> "" -> prefix "UTC" l2 = false -> prefix "UTC" (l2 ++ "UTC" ++ r) = false.
Proof.
  intros Hne H.
  destruct l2 as [|a [|b [|c l3]]]; [now elim Hne| | |].
  - cbn [String.append].
    destruct (Ascii.eqb_spec "U" a) as [<-|N]; [|now apply prefix_head_ne].
    rewrite prefix_cons. now apply prefix_head_ne.
  - cbn [String.append].
    destruct (Ascii.eqb_spec "U" a) as [<-|N]; [|now apply prefix_head_ne].
    rewrite prefix_cons.
    destruct (Ascii.eqb_spec "T" b) as [<-|N]; [|now apply prefix_head_ne].
    rewrite prefix_cons. now apply prefix_head_ne.
  - cbn [String.append].
    destruct (Ascii.eqb_spec "U" a) as [<-|N]; [|now apply prefix_head_ne].
    rewrite prefix_cons in *.
    destruct (Ascii.eqb_spec "T" b) as [<-|N]; [|now apply prefix_head_ne].
    rewrite prefix_cons in *.
    destruct (Ascii.eqb_spec "C" c) as [<-|N]; [|now apply prefix_head_ne].
    rewrite prefix_cons in H. now destruct l3.
Qed.

(** The one ["UTC"] of a text is taken out and the rest is kept. *)
Lemma replace_one_UTC (l r : QString) :
  contains l "UTC" = false -> contains r "UTC" = false ->
  replace (l ++ "UTC" ++ r) "UTC" "" = l ++ r.
Proof.
  intros Hl Hr. unfold replace.
  rewrite replace_from_copy.
  - rewrite (replace_from_match "U" "TC" r "").
    now rewrite (replace_from_absent r _ _ Hr).
  - intros l1 l2 -> Hne. apply prefix_UTC_straddle; [exact Hne|].
    apply contains_suffix in Hl. destruct l2; [now elim Hne|].
    rewrite contains_cons in Hl. now apply orb_false_iff in Hl as [Hl _].
Qed.

Section DateFacts.

Variable tr : QString -> QString.
Variable QDateTime : Type.
Variable defaultDateTime : QDateTime.
Variable setTimeSpecUTC : QDateTime -> QDateTime.
Variable setTime_t : Z -> QDateTime -> QDateTime.
Variable isValid : QDateTime -> bool.
Variable isNull : QDateTime -> bool.
Variable dateTimeToString : QDateTime -> DateFormat -> QString.

Local Abbreviation short :=
  (formatDate tr QDateTime defaultDateTime setTimeSpecUTC setTime_t isValid isNull
     dateTimeToString).
Local Abbreviation long :=
  (formatDateLong tr QDateTime defaultDateTime setTimeSpecUTC setTime_t isValid
     isNull dateTimeToString).

(** C7.  For a time stamp that is not positive, and for one whose date
    and time the platform reports as not valid or as null, the short and
    the long renderer both return the translation of ["Invalid date"]. *)
Theorem formatDate_invalid : forall timeT : Z,
  let dateTime := setTime_t (to_uint timeT) (setTimeSpecUTC defaultDateTime) in
  (timeT <= 0)%Z \/ isValid dateTime = false \/ isNull dateTime = true ->
  short timeT = tr "Invalid date" /\ long timeT = tr "Invalid date".
Proof.
  intros timeT dateTime H. unfold formatDate, formatDateLong. fold dateTime.
  assert (E : (timeT >? 0)%Z && isValid dateTime && negb (isNull dateTime) = false).
  { destruct H as [H|[H|H]].
    - rewrite Z.gtb_ltb, (proj2 (Z.ltb_ge 0 timeT) H). reflexivity.
    - rewrite H. now rewrite andb_false_r.
    - rewrite H. now rewrite andb_false_r. }
  now rewrite E.
Qed.

(** Any other time stamp is rendered by the platform. *)
Lemma formatDate_valid (timeT : Z) :
  let dateTime := setTime_t (to_uint timeT) (setTimeSpecUTC defaultDateTime) in
  (0 < timeT)%Z -> isValid dateTime = true -> isNull dateTime = false ->
  short timeT = dateTimeToString dateTime DefaultLocaleShortDate /\
  long timeT = replace (dateTimeToString dateTime DefaultLocaleLongDate) (tr "UTC") "".
Proof.
  intros dateTime Hp Hv Hn. unfold formatDate, formatDateLong. fold dateTime.
  rewrite Hv, Hn. apply Z.gtb_lt in Hp. rewrite Hp. now split.
Qed.

(** C8, as the code has it.  For a positive time stamp that the platform
    accepts, the long renderer returns the long rendering of the locale
    with every occurrence of the translated label ["UTC"] taken out,
    wherever it stands.  With the label untranslated: a rendering that
    holds the label once comes back without it; a rendering that ends with
    its only label comes back without it and does not end with the label;
    a rendering without the label comes back as it is. *)
Theorem formatDateLong_removes_label : forall timeT : Z,
  let dateTime := setTime_t (to_uint timeT) (setTimeSpecUTC defaultDateTime) in
  let rendering := dateTimeToString dateTime DefaultLocaleLongDate in
  (0 < timeT)%Z -> isValid dateTime = true -> isNull dateTime = false ->
  long timeT = replace rendering (tr "UTC") "" /\
  (tr "UTC" = "UTC" ->
     (forall l r, rendering = l ++ "UTC" ++ r ->
        contains l "UTC" = false -> contains r "UTC" = false ->
        long timeT = l ++ r) /\
     (forall l, rendering = l ++ "UTC" -> contains l "UTC" = false ->
        long timeT = l /\ endsWith (long timeT) "UTC" = false) /\
     (contains rendering "UTC" = false -> long timeT = rendering)).
Proof.
  intros timeT dateTime rendering Hp Hv Hn.
  destruct (formatDate_valid timeT Hp Hv Hn) as [_ E].
  fold dateTime in E. fold rendering in E. rewrite E.
  split; [reflexivity|]. intros ->. split; [|split].
  - intros l r -> Hl Hr. now apply replace_one_UTC.
  - intros l El Hl.
    rewrite El, <- (append_nil_r (l ++ "UTC")), append_assoc.
    rewrite replace_one_UTC, append_nil_r by easy.
    split; [reflexivity | now apply not_contains_not_endsWith].
  - intros Hc. unfold replace. now apply replace_from_absent.
Qed.

End DateFacts.

(** The theorem at the time stamp 0 of the sample platform. *)
Lemma formatDate_invalid_witness :
  (0 <= 0)%Z /\
  formatDate untranslated Sample.DateTime None Sample.setTimeSpecUTC
    Sample.setTime_t Sample.isValid Sample.isNull Sample.zoneLast 0 = "Invalid date" /\
  formatDateLong untranslated Sample.DateTime None Sample.setTimeSpecUTC
    Sample.setTime_t Sample.isValid Sample.isNull Sample.zoneLast 0 = "Invalid date".
Proof.
  split; [lia|].
  apply (formatDate_invalid untranslated Sample.DateTime None Sample.setTimeSpecUTC
           Sample.setTime_t Sample.isValid Sample.isNull Sample.zoneLast 0).
  left. lia.
Defined.

(** The theorem one hour after the epoch, the label behind the time: the
    label goes, the space before it stays. *)
Lemma formatDateLong_removes_label_witness :
  (0 < 3600)%Z /\
  formatDateLong untranslated Sample.DateTime None Sample.setTimeSpecUTC
    Sample.setTime_t Sample.isValid Sample.isNull Sample.zoneLast 3600 = "01:00:00 " /\
  endsWith
    (formatDateLong untranslated Sample.DateTime None Sample.setTimeSpecUTC
       Sample.setTime_t Sample.isValid Sample.isNull Sample.zoneLast 3600) "UTC"
  = false.
Proof.
  split; [lia|].
  apply (proj1 (proj2 (proj2
    (formatDateLong_removes_label untranslated Sample.DateTime None
       Sample.setTimeSpecUTC Sample.setTime_t Sample.isValid Sample.isNull
       Sample.zoneLast 3600 ltac:(lia) eq_refl eq_refl) eq_refl)) "01:00:00 ").
  - reflexivity.
  - reflexivity.
Defined.

(** C8, as the specification words it, fails where the locale puts the
    label before the time: nothing is at the end to strip, and the code
    takes the label out all the same. *)
Lemma formatDateLong_removes_leading_label :
  Sample.zoneFirst (Some 3600%Z) DefaultLocaleLongDate = "UTC 01:00:00" /\
  formatDateLong untranslated Sample.DateTime None Sample.setTimeSpecUTC
    Sample.setTime_t Sample.isValid Sample.isNull Sample.zoneFirst 3600 = " 01:00:00" /\
  Worded.stripTrailing (Sample.zoneFirst (Some 3600%Z) DefaultLocaleLongDate) "UTC"
  = "UTC 01:00:00" /\
  formatDateLong untranslated Sample.DateTime None Sample.setTimeSpecUTC
    Sample.setTime_t Sample.isValid Sample.isNull Sample.zoneFirst 3600 <>
  Worded.stripTrailing (Sample.zoneFirst (Some 3600%Z) DefaultLocaleLongDate) "UTC".
Proof. repeat split; try reflexivity. vm_compute. discriminate. Qed.

(** One hour after the epoch on the sample platform, short and long. *)
Example formatDate_sample :
  formatDate untranslated Sample.DateTime None Sample.setTimeSpecUTC
    Sample.setTime_t Sample.isValid Sample.isNull Sample.zoneLast 3600 = "01:00:00" /\
  formatDateLong untranslated Sample.DateTime None Sample.setTimeSpecUTC
    Sample.setTime_t Sample.isValid Sample.isNull Sample.zoneLast (-1) = "Invalid date".
Proof. split; reflexivity. Qed.

(** ** Coordinates *)

(** The one marker of the source text takes the argument. *)
Lemma arg_coordinates_valid (coords : QString) :
  arg "Coordinates are valid: %1" coords = "Coordinates are valid: " ++ coords.
Proof. apply argWith_coordinates. Qed.

Section CoordinateFacts.

Variable tr : QString -> QString.
Variable Pos : Type.
Variable fromAnyFormat : QString -> Pos.
Variable posIsValid : Pos -> bool.
Variable unitCoords : Pos -> QString.
Variable errorMessage : QString -> QString.

Local Abbreviation check :=
  (checkCoordinates tr Pos fromAnyFormat posIsValid unitCoords errorMessage).
Local Abbreviation checkPlain :=
  (checkCoordinates untranslated Pos fromAnyFormat posIsValid unitCoords errorMessage).

(** C6.  The returned flag is the validity of the parsed position.  On a
    valid position the message is the translated ["Coordinates are valid:
    %1"] filled with the canonical rendering when that differs from the
    text, and the translated ["Coordinates are valid."] when it is the
    text; without a translation these read ["Coordinates are valid: "]
    followed by the rendering, and ["Coordinates are valid."].  On an
    invalid position the flag is [false] and the message is the error
    styling of the translated ["Coordinates are not valid."].  The message
    that was in the slot before plays no part. *)
Theorem checkCoordinates_result : forall message text : QString,
  let pos := fromAnyFormat text in
  fst (check message text) = posIsValid pos /\
  (posIsValid pos = true -> unitCoords pos <> text ->
     check message text =
       (true, arg (tr "Coordinates are valid: %1") (unitCoords pos)) /\
     checkPlain message text =
       (true, "Coordinates are valid: " ++ unitCoords pos)) /\
  (posIsValid pos = true -> unitCoords pos = text ->
     check message text = (true, tr "Coordinates are valid.") /\
     checkPlain message text = (true, "Coordinates are valid.")) /\
  (posIsValid pos = false ->
     check message text = (false, errorMessage (tr "Coordinates are not valid.")) /\
     checkPlain message text = (false, errorMessage "Coordinates are not valid.")).
Proof.
  intros message text pos. unfold checkCoordinates. fold pos.
  destruct (posIsValid pos) eqn:V.
  - split; [reflexivity|]. split; [|split].
    + intros _ Hne. apply String.eqb_neq in Hne. rewrite Hne. cbn [negb].
      unfold untranslated at 1. now rewrite arg_coordinates_valid.
    + intros _ He. apply String.eqb_eq in He. rewrite He. now split.
    + discriminate.
  - split; [reflexivity|]. split; [discriminate|]. split; [discriminate|].
    intros _. now split.
Qed.

End CoordinateFacts.

(** The theorem on the sample parser: a text that is read and reads back
    differently. *)
Lemma checkCoordinates_result_witness :
  Sample.posIsValid (Sample.fromAnyFormat "N48 07.2 E11 34.4") = true /\
  checkCoordinates untranslated Sample.Pos Sample.fromAnyFormat Sample.posIsValid
    Sample.unitCoords Sample.errorMessage "" "N48 07.2 E11 34.4" =
  (true, "Coordinates are valid: N 48 7.2' E 11 34.4'").
Proof.
  split; [reflexivity|].
  apply (proj1 (proj2
    (checkCoordinates_result untranslated Sample.Pos Sample.fromAnyFormat
       Sample.posIsValid Sample.unitCoords Sample.errorMessage
       "" "N48 07.2 E11 34.4"))).
  - reflexivity.
  - discriminate.
Defined.

Example checkCoordinates_sample :
  checkCoordinates untranslated Sample.Pos Sample.fromAnyFormat Sample.posIsValid
    Sample.unitCoords Sample.errorMessage "" "N 48 7.2' E 11 34.4'" =
  (true, "Coordinates are valid.") /\
  checkCoordinates untranslated Sample.Pos Sample.fromAnyFormat Sample.posIsValid
    Sample.unitCoords Sample.errorMessage "old" "not coords" =
  (false, "<span style='color: red'>Coordinates are not valid.</span>").
Proof. split; reflexivity. Qed.

(** ** The duration formatters *)

Lemma isEmpty_append_literal (a : QString) (c : ascii) (b : QString) :
  isEmpty (a ++ String c b) = false.
Proof. now destruct a. Qed.

(** A zero-padded number between 0 and 99 is two characters wide. *)
Lemma length_cNumber_two (i : Z) :
  (0 <= i < 100)%Z -> String.length (cNumber i 2 true) = 2%nat.
Proof.
  intros H. rewrite <- (Z2Nat.id i) by lia.
  assert (B : (Z.to_nat i < 100)%nat) by lia.
  revert B. generalize (Z.to_nat i) as n. intros n.
  do 100 (destruct n as [|n]; [reflexivity|]).
  intros B. exfalso. lia.
Qed.

(** C3, at a time of 1 hour and 59.765625 minutes (511/256 hours, exact
    as a [double]) and at 1.9999 hours: the minutes round to 60; the two
    formatters with days render the 60 next to the hour 1, where the two
    formatters of hours and minutes carry into the hour and render 2 and
    00. *)
Theorem formatMinutesHoursDays_renders_60 :
  daysHoursMinutes (511 # 256) = (0, 1, 60)%Z /\
  hoursMinutes (511 # 256) = (2, 0)%Z /\
  formatMinutesHoursDays untranslated cLocaleNumber (511 # 256) = "0:01:60" /\
  formatMinutesHoursDaysLong untranslated cLocaleNumber (511 # 256) = "1 h 60 m" /\
  formatMinutesHours untranslated cLocaleNumber (511 # 256) = "2:00" /\
  formatMinutesHoursLong untranslated cLocaleNumber (511 # 256) = "2 h 00 m" /\
  formatMinutesHoursDays untranslated cLocaleNumber (19999 # 10000) = "0:01:60" /\
  formatMinutesHoursDaysLong untranslated cLocaleNumber (19999 # 10000) = "1 h 60 m" /\
  formatMinutesHours untranslated cLocaleNumber (19999 # 10000) = "2:00".
Proof. repeat split; vm_compute; reflexivity. Qed.

Section DurationFacts.

Variable localeNumber : Z -> nat -> bool -> QString.

Local Abbreviation shaped i := (toString localeNumber i).
Local Abbreviation padded i := (cNumber i 2 true).
Local Abbreviation long :=
  (formatMinutesHoursDaysLong untranslated localeNumber).

(** The locale writes numbers without a per cent sign. *)
Hypothesis localeNumber_plain :
  forall i : Z, hasChar "%" (localeNumber i 0%nat false) = false.



Lemma formatMinutesHoursDays_rendering (time : Q) :
  formatMinutesHoursDays untranslated localeNumber time =
  shaped (fst (fst (daysHoursMinutes time))) ++ ":" ++
  padded (snd (fst (daysHoursMinutes time))) ++ ":" ++
  padded (snd (daysHoursMinutes time)).
Proof.
  unfold formatMinutesHoursDays. destruct (daysHoursMinutes time) as [[d h] m].
  cbn [fst snd].
  unfold arg, argInt, untranslated, toString.
  change ("0" =? "0")%char with true.
  rewrite argWith_dhm.
  rewrite (argWith_behind _ ":" "%2:%3") by (reflexivity || apply localeNumber_plain).
  rewrite argWith_2_3_padded, padLeft_cNumber.
  change (localeNumber d 0%nat false ++ String ":" (cNumber h 2 true ++ ":%3"))
    with (localeNumber d 0%nat false ++
          String ":" (cNumber h 2 true) ++ String ":" "%3").
  rewrite <- (append_assoc (localeNumber d 0%nat false) (String ":" (cNumber h 2 true))).
  rewrite (argWith_behind _ ":" "%3")
    by (reflexivity ||
        (rewrite hasChar_append, localeNumber_plain; apply cNumber_plain)).
  rewrite argWith_3_padded, padLeft_cNumber.
  now rewrite append_assoc.
Qed.

(** So, for a time that is not negative whose minutes round up to 60, the
    formatter of days, hours and minutes renders ["60"] as its last field
    behind the hours of the whole hours. *)
Lemma formatMinutesHoursDays_field_60 (time : Q) :
  (0 <= time)%Q -> (119 # 2 <= unroundedMinutes time)%Q ->
  formatMinutesHoursDays untranslated localeNumber time =
  shaped (Qfloor time / 24)%Z ++ ":" ++ padded (Qfloor time mod 24)%Z ++ ":" ++ "60".
Proof.
  intros H0 H. rewrite formatMinutesHoursDays_rendering.
  pose proof (daysHoursMinutes_no_carry time H0) as F.
  destruct (daysHoursMinutes time) as [[d h] m]. cbn [fst snd].
  destruct F as (-> & -> & _ & _ & _ & Fm). now rewrite (Fm H).
Qed.

(** C5.  For a time in the range of [int], with its days, hours and
    minutes as the code computes them: the days are emitted, shaped by the
    locale and followed by [" d"], when they are positive; the hours are
    emitted when they are positive, behind the days as a space, two
    zero-padded digits and [" h"], without days shaped by the locale; the
    minutes are always emitted, behind days or hours as a space, two
    zero-padded digits and [" m"], alone shaped by the locale.  For a time
    that is not negative, positive days and hours are the non-zero ones
    and the padded hours and minutes are two characters wide.  25.25, 1.25
    and 0.25 hours render as in the specification. *)
Theorem formatMinutesHoursDaysLong_components : forall time : Q,
  fitsInt time ->
  let days := fst (fst (daysHoursMinutes time)) in
  let hours := snd (fst (daysHoursMinutes time)) in
  let minutes := snd (daysHoursMinutes time) in
  long time =
    (if (days >? 0)%Z then shaped days ++ " d" else "") ++
    (if (hours >? 0)%Z then
       if (days >? 0)%Z then " " ++ padded hours ++ " h" else shaped hours ++ " h"
     else "") ++
    (if (days >? 0)%Z || (hours >? 0)%Z
     then " " ++ padded minutes ++ " m"
     else shaped minutes ++ " m") /\
  ((0 <= time)%Q ->
     (days >? 0)%Z = negb (days =? 0)%Z /\
     (hours >? 0)%Z = negb (hours =? 0)%Z /\
     String.length (padded hours) = 2%nat /\
     String.length (padded minutes) = 2%nat) /\
  formatMinutesHoursDaysLong untranslated cLocaleNumber (101 # 4) = "1 d 01 h 15 m" /\
  formatMinutesHoursDaysLong untranslated cLocaleNumber (5 # 4) = "1 h 15 m" /\
  formatMinutesHoursDaysLong untranslated cLocaleNumber (1 # 4) = "15 m".
Proof.
  intros time _ days hours minutes.
  split; [|split; [|repeat split; vm_compute; reflexivity]].
  - unfold formatMinutesHoursDaysLong.
    subst days hours minutes.
    destruct (daysHoursMinutes time) as [[d h] m]. cbn [fst snd].
    unfold arg, argInt, untranslated. cbv zeta.
    change ("0" =? "0")%char with true.
    rewrite argWith_d, !argWith_h, !argWith_m, !argWith_h_padded,
      !argWith_m_padded, !padLeft_cNumber.
    destruct (d >? 0)%Z, (h >? 0)%Z; cbn [orb String.append];
      repeat (rewrite ?isEmpty_append_literal; change (isEmpty "") with true;
              progress cbn [negb]);
      repeat (progress (rewrite ?append_assoc; cbn [String.append]));
      reflexivity.
  - intros H0. pose proof (daysHoursMinutes_no_carry time H0) as F.
    subst days hours minutes.
    destruct (daysHoursMinutes time) as [[d h] m]. cbn [fst snd].
    destruct F as (_ & _ & Fd & Fh & Fm & _).
    repeat split.
    + destruct (Z.gtb_spec d 0), (Z.eqb_spec d 0); simpl; lia || reflexivity.
    + destruct (Z.gtb_spec h 0), (Z.eqb_spec h 0); simpl; lia || reflexivity.
    + apply length_cNumber_two. lia.
    + apply length_cNumber_two. lia.
Qed.

End DurationFacts.

(** The theorem at 49.5 hours in the C locale: two days, one hour and
    thirty minutes. *)
Lemma formatMinutesHoursDaysLong_components_witness :
  fitsInt (99 # 2) /\ (0 <= 99 # 2)%Q /\
  formatMinutesHoursDaysLong untranslated cLocaleNumber (99 # 2) = "2 d 01 h 30 m" /\
  String.length (cNumber (snd (fst (daysHoursMinutes (99 # 2)))) 2 true) = 2%nat.
Proof.
  assert (R : fitsInt (99 # 2)) by (split; reflexivity).
  assert (P : (0 <= 99 # 2)%Q) by discriminate.
  split; [exact R|]. split; [exact P|].
  pose proof (formatMinutesHoursDaysLong_components cLocaleNumber (99 # 2) R)
    as (E & B & _).
  split; [exact E|]. exact (proj1 (proj2 (proj2 (B P)))).
Defined.

(** ** Elapsed time *)

(** A count of seconds in the range of [int] is not changed by the
    narrowing. *)
Lemma narrow_int_small (z : Z) :
  (-2147483648 <= z < 2147483648)%Z -> narrow_int z = z.
Proof.
  intros H. unfold narrow_int.
  rewrite Z.mod_small by lia. lia.
Qed.

Section ElapsedFacts.

Variable localeNumber : Z -> nat -> bool -> QString.

(** The locale writes numbers without a per cent sign. *)
Hypothesis localeNumber_plain :
  forall i : Z, hasChar "%" (localeNumber i 0%nat false) = false.

Local Abbreviation shaped i := (localeNumber i 0%nat false).

(** The template of the short form, filled with a number and a word. *)
Lemma fill_seconds (secs : Z) (word : QString) :
  arg (argInt localeNumber "%L1 %2" secs 0 " ") word = shaped secs ++ " " ++ word.
Proof.
  unfold arg, argInt. change (" " =? "0")%char with false.
  rewrite argWith_L1_2.
  rewrite (argWith_behind (shaped secs) " " "%2")
    by (reflexivity || apply localeNumber_plain).
  now rewrite argWith_2.
Qed.

(** The template of the long form, filled with two numbers and two words,
    the first word without a per cent sign. *)
Lemma fill_minutes_seconds (mins secs : Z) (word1 word2 : QString) :
  hasChar "%" word1 = false ->
  arg (argInt localeNumber
         (arg (argInt localeNumber "%L1 %2 %L3 %4" mins 0 " ") word1) secs 0 " ")
      word2 =
  shaped mins ++ " " ++ word1 ++ " " ++ shaped secs ++ " " ++ word2.
Proof.
  intros W. unfold arg, argInt. change (" " =? "0")%char with false.
  set (R := shaped mins ++ " " ++ word1 ++ " " ++ shaped secs ++ " " ++ word2).
  rewrite argWith_L1_2_L3_4.
  rewrite (argWith_behind (shaped mins) " " "%2 %L3 %4")
    by (reflexivity || apply localeNumber_plain).
  rewrite argWith_2_L3_4.
  change (shaped mins ++ String " " (word1 ++ " %L3 %4"))
    with (shaped mins ++ String " " word1 ++ String " " "%L3 %4").
  rewrite <- (append_assoc (shaped mins) (String " " word1)).
  assert (P1 : hasChar "%" (shaped mins ++ String " " word1) = false)
    by (rewrite hasChar_append, localeNumber_plain; exact W).
  rewrite (argWith_behind _ " " "%L3 %4" 0 " " _ _ P1 eq_refl).
  rewrite argWith_L3_4.
  set (X := shaped mins ++ String " " word1) in *.
  change (X ++ String " " (shaped secs ++ " %4"))
    with (X ++ String " " (shaped secs) ++ String " " "%4").
  rewrite <- (append_assoc X (String " " (shaped secs))).
  assert (P2 : hasChar "%" (X ++ String " " (shaped secs)) = false)
    by (rewrite hasChar_append, P1; apply localeNumber_plain).
  rewrite (argWith_behind _ " " "%4" 0 " " _ _ P2 eq_refl).
  rewrite argWith_4.
  subst X R.
  repeat (progress (rewrite ?append_assoc; cbn [String.append])).
  reflexivity.
Qed.

(** C9, as the code has it.  For an elapsed time whose whole seconds are
    in the range of [int], that is below 2147483648000 ms (and above
    -2147483649000 ms), the printer does what the specification words:
    below 60 whole seconds the number and ["second"] at 1, ["seconds"]
    otherwise; from 60 on the minutes [s / 60] and the seconds [s mod 60],
    each with its own singular or plural.  1000 ms, 61000 ms and 125000 ms
    render as in the specification. *)
Theorem formatElapsed_in_range : forall elapsed : Z,
  (-2147483649000 < elapsed < 2147483648000)%Z ->
  formatElapsed untranslated localeNumber elapsed =
    Worded.formatElapsedAsWorded localeNumber elapsed /\
  formatElapsed untranslated cLocaleNumber 1000 = "1 second" /\
  formatElapsed untranslated cLocaleNumber 61000 = "1 minute 1 second" /\
  formatElapsed untranslated cLocaleNumber 125000 = "2 minutes 5 seconds".
Proof.
  intros elapsed R.
  split; [|repeat split; vm_compute; reflexivity].
  unfold formatElapsed, Worded.formatElapsedAsWorded, untranslated.
  assert (Q : (-2147483648 <= Z.quot elapsed 1000 < 2147483648)%Z).
  { destruct (Z.lt_ge_cases elapsed 0) as [N|P].
    - pose proof (Z.quot_opp_l elapsed 1000 ltac:(lia)) as O.
      pose proof (Z.quot_pos (- elapsed) 1000 ltac:(lia) ltac:(lia)) as L.
      pose proof (Z.quot_lt_upper_bound (- elapsed) 1000 2147483649
                    ltac:(lia) ltac:(lia) ltac:(lia)) as U.
      lia.
    - pose proof (Z.quot_pos elapsed 1000 P ltac:(lia)) as L.
      pose proof (Z.quot_lt_upper_bound elapsed 1000 2147483648
                    P ltac:(lia) ltac:(lia)) as U.
      lia. }
  rewrite (narrow_int_small _ Q). cbv zeta.
  destruct (Z.ltb_spec (Z.quot elapsed 1000) 60) as [S|S].
  - apply fill_seconds.
  - rewrite (Z.quot_div_nonneg (Z.quot elapsed 1000) 60) by lia.
    replace (Z.quot elapsed 1000 - Z.quot elapsed 1000 / 60 * 60)%Z
      with (Z.quot elapsed 1000 mod 60)%Z
      by (rewrite Z.mod_eq by lia; lia).
    apply fill_minutes_seconds.
    now destruct (Z.quot elapsed 1000 / 60 =? 1)%Z.
Qed.

End ElapsedFacts.

(** The theorem in the C locale at one hour, one minute and one second. *)
Lemma formatElapsed_in_range_witness :
  (-2147483649000 < 3661000 < 2147483648000)%Z /\
  formatElapsed untranslated cLocaleNumber 3661000 = "61 minutes 1 second".
Proof.
  assert (R : (-2147483649000 < 3661000 < 2147483648000)%Z) by lia.
  split; [exact R|].
  exact (proj1 (formatElapsed_in_range cLocaleNumber
                  (fun i => cNumber_plain i 0 false) 3661000 R)).
Defined.

(** C9, as the specification words it, fails at 2147483648000 ms: the
    2147483648 whole seconds do not fit an [int], the narrowing makes
    them negative, and the code takes the branch for less than a
    minute. *)
Lemma formatElapsed_wraps :
  formatElapsed untranslated cLocaleNumber 2147483648000 = "-2147483648 seconds" /\
  Worded.formatElapsedAsWorded cLocaleNumber 2147483648000 =
    "35791394 minutes 8 seconds" /\
  formatElapsed untranslated cLocaleNumber 2147483648000 <>
  Worded.formatElapsedAsWorded cLocaleNumber 2147483648000.
Proof. repeat split; try (vm_compute; reflexivity). vm_compute. discriminate. Qed.

(** * Further properties *)

Example formatDoubleUnit_sample :
  formatDoubleUnit untranslated SampleMore.fixedPoint (12345 # 100) "ft" 1 = "123.5 ft" /\
  formatDoubleUnit untranslated SampleMore.fixedPoint (12345 # 100) "" 0 = "123" /\
  formatFloatUnit untranslated SampleMore.fixedPoint (- (1 # 4)) "nm" 3 = "-0.250 nm".
Proof. repeat split; vm_compute; reflexivity. Qed.

(** ** Durations to the nearest minute *)







Section NearestMinute.

Variable localeNumber : Z -> nat -> bool -> QString.

(** The locale writes numbers without a per cent sign. *)
Hypothesis localeNumber_plain :
  forall i : Z, hasChar "%" (localeNumber i 0%nat false) = false.





End NearestMinute.





(** ** Numbers with a unit *)

Lemma argWith_L1 (f : ascii) (a la : QString) : argWith "%L1" 0 f a la = la.
Proof. fill_template. Qed.

(** The sample rendering has no per cent sign. *)
Lemma fixedPoint_plain (value : Q) (precision : Z) :
  hasChar "%" (SampleMore.fixedPoint value precision) = false.
Proof.
  unfold SampleMore.fixedPoint. cbv zeta.
  rewrite !hasChar_append, cNumber_plain.
  destruct (_ <? 0)%Z, (Z.to_nat precision =? 0)%nat; cbn [hasChar orb];
    try reflexivity.
  all: rewrite hasChar_append, cNumber_plain; reflexivity.
Qed.

Section UnitFacts.

Variable localeDouble : Q -> Z -> QString.

(** The locale writes numbers without a per cent sign. *)
Hypothesis localeDouble_plain :
  forall (value : Q) (precision : Z),
    hasChar "%" (localeDouble value precision) = false.

(** X5.  Without a translation: with an empty unit both renderers return
    the number as the locale writes it and nothing behind it; with any
    other unit they return the number, one space, and the unit as it is,
    also when the unit holds per cent signs or place markers. *)
Theorem formatUnit_spacing : forall (value : Q) (unit : QString) (precision : Z),
  let number := localeDouble value precision in
  (unit = "" ->
     formatFloatUnit untranslated localeDouble value unit precision = number /\
     formatDoubleUnit untranslated localeDouble value unit precision = number) /\
  (unit <> "" ->
     formatFloatUnit untranslated localeDouble value unit precision =
       number ++ " " ++ unit /\
     formatDoubleUnit untranslated localeDouble value unit precision =
       number ++ " " ++ unit).
Proof.
  intros value unit precision number.
  unfold formatFloatUnit, formatDoubleUnit, untranslated, arg. fold number.
  split.
  - intros ->. cbn [isEmpty]. now rewrite argWith_L1.
  - intros Hne. destruct unit as [|c u]; [now elim Hne|]. cbn [isEmpty].
    rewrite argWith_L1_2.
    rewrite (argWith_behind number " " "%2")
      by (reflexivity || apply localeDouble_plain).
    now rewrite argWith_2.
Qed.

End UnitFacts.

(** The theorem on the sample rendering, with a unit that is a place
    marker. *)
Lemma formatUnit_spacing_witness :
  "%1" <> "" /\
  formatDoubleUnit untranslated SampleMore.fixedPoint (12345 # 100) "%1" 1 = "123.5 %1".
Proof.
  assert (N : "%1" <> "") by discriminate.
  split; [exact N|].
  exact (proj2 (proj2 (formatUnit_spacing SampleMore.fixedPoint fixedPoint_plain
                         (12345 # 100) "%1" 1) N)).
Defined.

(** ** More about the year variant *)

(** Every replacement trades the length of [before] for that of [after];
    a text that holds [before] has at least one. *)
Lemma replace_from_count (c : ascii) (m after : QString) (n : nat) :
  forall s : QString, (String.length s <= n)%nat ->
  exists k : nat,
    (String.length (replace_from 0 s (String c m) after)
       + k * String.length (String c m)
     = String.length s + k * String.length after)%nat /\
    (contains s (String c m) = true -> (1 <= k)%nat).
Proof.
  induction n as [|n IH]; intros s Hn.
  - destruct s; [|simpl in Hn; lia]. exists 0%nat. split; [reflexivity|].
    rewrite contains_nil. discriminate.
  - destruct s as [|x s'].
    + exists 0%nat. split; [reflexivity|]. rewrite contains_nil. discriminate.
    + destruct (prefix (String c m) (String x s')) eqn:P.
      * apply prefix_split in P as [r E]. rewrite E in *.
        rewrite length_append in Hn. cbn [String.length] in Hn.
        destruct (IH r ltac:(lia)) as (k & Ek & _).
        exists (S k). rewrite replace_from_match, !length_append.
        cbn [String.length] in *. split; [lia | intros _; lia].
      * cbn [String.length] in Hn.
        destruct (IH s' ltac:(lia)) as (k & Ek & Ck).
        exists k. cbn [replace_from]. rewrite P.
        rewrite contains_cons, P. cbn [String.length orb] in *.
        split; [lia | exact Ck].
Qed.

Lemma replace_yyyy_shorter (s : QString) :
  contains s "yyyy" = true ->
  (String.length (replace s "yyyy" "yy") < String.length s)%nat.
Proof.
  intros H. unfold replace.
  destruct (replace_from_count "y" "yyy" "yy" (String.length s) s (le_n _))
    as (k & Ek & Ck).
  specialize (Ck H). cbn [String.length] in Ek. lia.
Qed.

Lemma replace_yy_longer (s : QString) :
  contains s "yy" = true ->
  (String.length s < String.length (replace s "yy" "yyyy"))%nat.
Proof.
  intros H. unfold replace.
  destruct (replace_from_count "y" "y" "yyyy" (String.length s) s (le_n _))
    as (k & Ek & Ck).
  specialize (Ck H). cbn [String.length] in Ek. lia.
Qed.

Lemma yearTokenIn_contains_yy (s : QString) :
  containsYearToken false s = true -> contains s "yy" = true.
Proof.
  intros H. apply containsYearToken_iff in H as (l & r & -> & _ & _).
  apply contains_iff. now exists l, r.
Qed.

(** X6.  The year variant of a pattern is shorter than the pattern when
    ["yyyy"] occurs in it, longer when it does not and ["yy"] stands
    between two word boundaries, and the pattern itself in no other
    case: the variant repeats the pattern exactly when the pattern has no
    year token to vary. *)
Theorem yearVariant_changes : forall s : QString,
  (yearVariant s = s <-> ~ occursIn "yyyy" s /\ ~ yearTokenIn s) /\
  (occursIn "yyyy" s ->
     (String.length (yearVariant s) < String.length s)%nat) /\
  (~ occursIn "yyyy" s -> yearTokenIn s ->
     (String.length s < String.length (yearVariant s))%nat).
Proof.
  intros s.
  assert (A : occursIn "yyyy" s ->
              (String.length (yearVariant s) < String.length s)%nat).
  { intros H. apply contains_iff in H. unfold yearVariant. rewrite H.
    now apply replace_yyyy_shorter. }
  assert (B : ~ occursIn "yyyy" s -> yearTokenIn s ->
              (String.length s < String.length (yearVariant s))%nat).
  { intros H1 H2. unfold yearVariant. rewrite (not_occursIn_contains _ _ H1).
    apply containsYearToken_yearTokenIn in H2. rewrite H2.
    now apply replace_yy_longer, yearTokenIn_contains_yy. }
  split; [|split; [exact A | exact B]].
  split.
  - intros E.
    assert (N1 : ~ occursIn "yyyy" s)
      by (intros H; specialize (A H); rewrite E in A; lia).
    split; [exact N1|].
    intros H. specialize (B N1 H). rewrite E in B. lia.
  - intros [N1 N2]. unfold yearVariant.
    now rewrite (not_occursIn_contains _ _ N1), (not_yearTokenIn_contains _ N2).
Qed.

(** A pattern with one ["yy"] among characters other than ["y"] has it at
    one place only. *)
Lemma one_yy_unique (l r l' r' : QString) :
  hasChar "y" l = false -> hasChar "y" r = false ->
  l ++ "yy" ++ r = l' ++ "yy" ++ r' -> l' = l /\ r' = r.
Proof.
  intros Hl Hr. revert l'. induction l as [|c l IH]; intros l' E.
  - destruct l' as [|a [|b l3]].
    + injection E as E. now subst.
    + exfalso. injection E as _ E. subst r. discriminate.
    + exfalso. injection E as _ _ E. subst r.
      rewrite hasChar_append in Hr. apply orb_false_iff in Hr as [_ Hr].
      discriminate.
  - simpl in Hl. apply orb_false_iff in Hl as [Hc Hl].
    destruct l' as [|a l'].
    + exfalso. injection E as E _. subst c. discriminate.
    + injection E as Ea E. destruct (IH Hl _ E) as [-> ->]. now subst.
Qed.

Lemma yearVariant_demote_one (l r : QString) :
  hasChar "y" l = false -> hasChar "y" r = false ->
  yearVariant (l ++ "yyyy" ++ r) = l ++ "yy" ++ r.
Proof.
  intros Hl Hr. unfold yearVariant.
  assert (E : contains (l ++ "yyyy" ++ r) "yyyy" = true)
    by (apply contains_iff; now exists l, r).
  rewrite E. now apply replace_one_yyyy.
Qed.

Lemma yearVariant_promote_one (l r : QString) :
  hasChar "y" l = false -> hasChar "y" r = false ->
  endsWord l = false -> startsWord r = false ->
  yearVariant (l ++ "yy" ++ r) = l ++ "yyyy" ++ r.
Proof.
  intros Hl Hr Bl Br. unfold yearVariant.
  rewrite (contains_yyyy_one_yy l r Hl Hr).
  assert (E : containsYearToken false (l ++ "yy" ++ r) = true)
    by (apply containsYearToken_yearTokenIn; now exists l, r).
  rewrite E. now apply replace_one_yy.
Qed.

Lemma yearVariant_keep_one (l r : QString) :
  hasChar "y" l = false -> hasChar "y" r = false ->
  endsWord l = true \/ startsWord r = true ->
  yearVariant (l ++ "yy" ++ r) = l ++ "yy" ++ r.
Proof.
  intros Hl Hr B. unfold yearVariant.
  rewrite (contains_yyyy_one_yy l r Hl Hr).
  rewrite not_yearTokenIn_contains; [reflexivity|].
  intros (l' & r' & E & Bl & Br).
  destruct (one_yy_unique l r l' r' Hl Hr E) as [-> ->].
  destruct B; congruence.
Qed.

(** X7.  For a pattern with one year token among characters other than
    ["y"]: when the token stands between two word boundaries, the year
    variant of the year variant is the pattern again, from two digits and
    from four; when a word character stands next to the token, the
    four-digit pattern is demoted and not promoted back, and the
    two-digit pattern has no variant of its own. *)
Theorem yearVariant_round_trip : forall l r : QString,
  hasChar "y" l = false -> hasChar "y" r = false ->
  (endsWord l = false -> startsWord r = false ->
     yearVariant (yearVariant (l ++ "yy" ++ r)) = l ++ "yy" ++ r /\
     yearVariant (yearVariant (l ++ "yyyy" ++ r)) = l ++ "yyyy" ++ r) /\
  (endsWord l = true \/ startsWord r = true ->
     yearVariant (yearVariant (l ++ "yyyy" ++ r)) = l ++ "yy" ++ r /\
     yearVariant (l ++ "yy" ++ r) = l ++ "yy" ++ r).
Proof.
  intros l r Hl Hr. split.
  - intros Bl Br. split.
    + rewrite (yearVariant_promote_one l r Hl Hr Bl Br).
      now apply yearVariant_demote_one.
    + rewrite (yearVariant_demote_one l r Hl Hr).
      now apply yearVariant_promote_one.
  - intros B. split.
    + rewrite (yearVariant_demote_one l r Hl Hr).
      now apply yearVariant_keep_one.
    + now apply yearVariant_keep_one.
Qed.

(** The theorem at the US English short pattern and at a compact
    pattern. *)
Lemma yearVariant_round_trip_witness :
  yearVariant (yearVariant "M/d/yy h:mm AP") = "M/d/yy h:mm AP" /\
  yearVariant (yearVariant "yyyyMMdd") = "yyMMdd".
Proof.
  split.
  - exact (proj1 (proj1 (yearVariant_round_trip "M/d/" " h:mm AP" eq_refl eq_refl)
                    eq_refl eq_refl)).
  - exact (proj1 (proj2 (yearVariant_round_trip "" "MMdd" eq_refl eq_refl)
                    (or_intror eq_refl))).
Defined.

(** ** More about the catalogue *)

Lemma endsWith_append (a b : QString) : endsWith (a ++ b) b = true.
Proof. apply endsWith_iff. now exists a. Qed.

Lemma zoneVariants_end (t p : QString) :
  In p (Worded.zoneVariants t) -> endsWith p "t" = true.
Proof.
  unfold Worded.zoneVariants. destruct (endsWith t "t"); [intros []|].
  intros [<-|[<-|[]]].
  - change (t ++ " t") with (t ++ " " ++ "t").
    rewrite <- append_assoc. apply endsWith_append.
  - apply endsWith_append.
Qed.

Section CatalogueMore.

Variable QLocale : Type.
Variables system English : QLocale.
Variable dateTimeFormat : QLocale -> FormatType -> QString.

Local Abbreviation init :=
  (initTranslateableTexts QLocale system English dateTimeFormat).

(** The catalogue is its first twelve entries and their zone variants. *)
Lemma initTranslateableTexts_built (before : QStringList) :
  List.length (firstn 12 (init before)) = 12%nat /\
  init before =
  (firstn 12 (init before) ++
   flat_map Worded.zoneVariants (firstn 12 (init before)))%list.
Proof.
  unfold initTranslateableTexts. rewrite addZoneVariants_flat_map.
  split; reflexivity.
Qed.

Lemma initTranslateableTexts_head (before : QStringList) :
  exists rest, init before = dateTimeFormat system ShortFormat :: rest.
Proof.
  unfold initTranslateableTexts. rewrite addZoneVariants_flat_map.
  eexists. reflexivity.
Qed.

(** X8.  After initialisation every pattern of the catalogue either ends
    in ["t"] or has both its zone variants, with a space and without, in
    the catalogue as well; and every entry behind the first twelve ends
    in ["t"]. *)
Theorem initTranslateableTexts_zone_closed : forall before : QStringList,
  (forall p, In p (init before) ->
     endsWith p "t" = true \/
     (In (p ++ " t") (init before) /\ In (p ++ "t") (init before))) /\
  (forall n p, (12 <= n)%nat -> nth_error (init before) n = Some p ->
     endsWith p "t" = true).
Proof.
  intros before.
  destruct (initTranslateableTexts_built before) as [L E].
  set (built := firstn 12 (init before)) in *.
  assert (V : forall p, In p (flat_map Worded.zoneVariants built) ->
              endsWith p "t" = true).
  { intros p Hp. apply in_flat_map in Hp as (t & _ & Hp).
    now apply zoneVariants_end in Hp. }
  split.
  - intros p Hp. rewrite E in Hp. apply in_app_or in Hp as [Hp|Hp].
    + destruct (endsWith p "t") eqn:T; [now left | right].
      assert (Z : In (p ++ " t") (Worded.zoneVariants p) /\
                  In (p ++ "t") (Worded.zoneVariants p))
        by (unfold Worded.zoneVariants; rewrite T; simpl; auto).
      rewrite E. split; apply in_or_app; right; apply in_flat_map;
        exists p; (split; [exact Hp | apply Z]).
    + left. now apply V.
  - intros n p Hn Hp. rewrite E in Hp.
    rewrite nth_error_app2 in Hp by lia.
    apply nth_error_In in Hp. now apply V.
Qed.

End CatalogueMore.

(** The theorem on the sample catalogue: the German short pattern has its
    two zone variants. *)
Lemma initTranslateableTexts_zone_closed_witness :
  In "dd.MM.yy HH:mm t"
    (initTranslateableTexts Sample.Locale Sample.German Sample.USEnglish
       Sample.dateTimeFormat []) /\
  In "dd.MM.yy HH:mmt"
    (initTranslateableTexts Sample.Locale Sample.German Sample.USEnglish
       Sample.dateTimeFormat []).
Proof.
  destruct (proj1 (initTranslateableTexts_zone_closed Sample.Locale Sample.German
                     Sample.USEnglish Sample.dateTimeFormat [])
              "dd.MM.yy HH:mm" (or_introl eq_refl)) as [T|Z].
  - discriminate T.
  - exact Z.
Defined.

(** ** More about the parser *)

Lemma splitWords_leading (pad s : QString) :
  onlySpace pad = true ->
  Worded.splitWords "" (pad ++ s) = Worded.splitWords "" s.
Proof.
  induction pad as [|c pad IH]; intros H; [reflexivity|].
  simpl in H. apply andb_true_iff in H as [Hc Hp].
  cbn [String.append Worded.splitWords isEmpty]. rewrite Hc. now apply IH.
Qed.

Lemma splitWords_only_space (cur pad : QString) :
  onlySpace pad = true ->
  Worded.splitWords cur pad = if isEmpty cur then [] else [cur].
Proof.
  revert cur. induction pad as [|c pad IH]; intros cur H; [reflexivity|].
  simpl in H. apply andb_true_iff in H as [Hc Hp].
  cbn [Worded.splitWords]. rewrite Hc, (IH "" Hp). reflexivity.
Qed.

Lemma splitWords_trailing (cur s pad : QString) :
  onlySpace pad = true ->
  Worded.splitWords cur (s ++ pad) = Worded.splitWords cur s.
Proof.
  intros H. revert cur. induction s as [|c s IH]; intros cur.
  - cbn [String.append]. now rewrite splitWords_only_space.
  - cbn [String.append Worded.splitWords]. now rewrite !IH.
Qed.

(** A word in front of a text is read into the current word. *)
Lemma splitWords_word (cur w s : QString) :
  hasSpace w = false ->
  Worded.splitWords cur (w ++ s) = Worded.splitWords (cur ++ w) s.
Proof.
  revert cur. induction w as [|c w IH]; intros cur H.
  - now rewrite append_nil_r.
  - simpl in H. apply orb_false_iff in H as [Hc Hw].
    cbn [String.append Worded.splitWords]. rewrite Hc, (IH _ Hw).
    now rewrite append_assoc.
Qed.

(** The words of words joined by single spaces are those words. *)
Lemma splitWords_concat (ws : list QString) :
  Forall (fun w => w <> "" /\ hasSpace w = false) ws ->
  Worded.splitWords "" (String.concat " " ws) = ws.
Proof.
  induction 1 as [|w ws [Hne Hw] Hws IH]; [reflexivity|].
  destruct ws as [|w' ws'].
  - cbn [String.concat]. rewrite <- (append_nil_r w) at 1.
    rewrite (splitWords_word "" w "" Hw). cbn [String.append Worded.splitWords].
    destruct w; [now elim Hne | reflexivity].
  - change (String.concat " " (w :: w' :: ws'))
      with (w ++ String " " (String.concat " " (w' :: ws'))).
    rewrite (splitWords_word "" w _ Hw).
    cbn [String.append Worded.splitWords].
    change (isSpace " ") with true. cbv iota.
    destruct w; [now elim Hne|]. cbn [isEmpty]. now rewrite IH.
Qed.

Lemma simplified_idempotent (s : QString) : simplified (simplified s) = simplified s.
Proof.
  rewrite (simplified_normalized (simplified s)).
  unfold Worded.normalized, Worded.words.
  rewrite (simplified_normalized s).
  unfold Worded.normalized, Worded.words.
  rewrite splitWords_concat by (apply splitWords_words; reflexivity).
  reflexivity.
Qed.

Section ParserMore.

Variable QLocale : Type.
Variables system English : QLocale.
Variable dateTimeFormat : QLocale -> FormatType -> QString.
Variable QDateTime : Type.
Variable defaultDateTime : QDateTime.
Variable isValid : QDateTime -> bool.
Variable toDateTime : QLocale -> QString -> QString -> QDateTime.

(** Qt: a default-constructed [QDateTime] is null and not valid. *)
Hypothesis default_invalid : isValid defaultDateTime = false.

Local Abbreviation init :=
  (initTranslateableTexts QLocale system English dateTimeFormat).
Local Abbreviation parse :=
  (readDateTime QLocale system QDateTime defaultDateTime isValid toDateTime).
Local Abbreviation try :=
  (tryFormats QLocale QDateTime isValid toDateTime system).
Local Abbreviation reads text p := (isValid (toDateTime system text p) = true).

Lemma tryFormats_exists (text : QString) (formats : QStringList) :
  forall (retval : QDateTime) (p : QString),
  In p formats -> reads text p -> isValid (try text retval formats) = true.
Proof.
  induction formats as [|f formats IH]; intros retval p Hin Hp; [destruct Hin|].
  simpl. destruct (isValid (toDateTime system text f)) eqn:E; [exact E|].
  destruct Hin as [->|Hin]; [congruence|]. now apply (IH _ p).
Qed.

Lemma tryFormats_app_valid (text : QString) (a b : QStringList) :
  forall retval : QDateTime,
  isValid retval = false -> isValid (try text retval a) = true ->
  try text retval (a ++ b)%list = try text retval a.
Proof.
  induction a as [|f a IH]; intros retval Hr Hv; simpl in *; [congruence|].
  destruct (isValid (toDateTime system text f)) eqn:E; [reflexivity|].
  now apply IH.
Qed.

Lemma tryFormats_app_invalid (text : QString) (a b : QStringList) :
  forall retval retval' : QDateTime,
  isValid (try text retval a) = false -> b <> [] ->
  try text retval (a ++ b)%list = try text retval' b.
Proof.
  induction a as [|f a IH]; intros retval retval' Hv Hb; simpl in *.
  - destruct b; [now elim Hb | reflexivity].
  - destruct (isValid (toDateTime system text f)) eqn:E; [congruence|].
    now apply IH.
Qed.

(** X9.  After initialisation, a text that the system locale reads under
    its own short pattern is read under that pattern, whatever the other
    patterns make of it.  And a text is read at all exactly when the
    system locale reads it under one of the first twelve patterns, or
    under the zone variant, with a space or without, of one of them that
    does not end in ["t"]. *)
Theorem readDateTime_after_init : forall (before : QStringList) (str : QString),
  let text := simplified str in
  (reads text (dateTimeFormat system ShortFormat) ->
     parse (init before) str =
     toDateTime system text (dateTimeFormat system ShortFormat)) /\
  (isValid (parse (init before) str) = true <->
   exists p, In p (firstn 12 (init before)) /\
     (reads text p \/
      (endsWith p "t" = false /\ (reads text (p ++ " t") \/ reads text (p ++ "t"))))).
Proof.
  intros before str text. split.
  - intros H. unfold readDateTime. fold text.
    destruct (initTranslateableTexts_head QLocale system English dateTimeFormat
                before) as [rest ->].
    change (dateTimeFormat system ShortFormat :: rest)
      with (([] ++ dateTimeFormat system ShortFormat :: rest)%list).
    apply tryFormats_first; [intros f []|exact H].
  - destruct (initTranslateableTexts_built QLocale system English dateTimeFormat
                before) as [_ E].
    set (built := firstn 12 (init before)) in *.
    unfold readDateTime. fold text. split.
    + intros Hv.
      apply (tryFormats_valid QLocale system QDateTime isValid toDateTime)
        in Hv as (tried & p & rest & Ef & _ & Hp & _); [|exact default_invalid].
      assert (Hin : In p (init before))
        by (rewrite Ef; apply in_or_app; right; now left).
      rewrite E in Hin. apply in_app_or in Hin as [Hin|Hin].
      * exists p. split; [exact Hin | now left].
      * apply in_flat_map in Hin as (t & Ht & Hz). exists t. split; [exact Ht|].
        right. unfold Worded.zoneVariants in Hz.
        destruct (endsWith t "t"); [destruct Hz|]. split; [reflexivity|].
        destruct Hz as [<-|[<-|[]]]; [now left | now right].
    + intros (p & Hin & H).
      assert (Z : endsWith p "t" = false ->
                  In (p ++ " t") (init before) /\ In (p ++ "t") (init before)).
      { intros T. rewrite E.
        split; apply in_or_app; right; apply in_flat_map; exists p;
          (split; [exact Hin|]); unfold Worded.zoneVariants; rewrite T;
          simpl; auto. }
      destruct H as [H|(T & [H|H])].
      * apply (tryFormats_exists text _ _ p); [|exact H].
        rewrite E. apply in_or_app. now left.
      * apply (tryFormats_exists text _ _ (p ++ " t")); [|exact H]. now apply Z.
      * apply (tryFormats_exists text _ _ (p ++ "t")); [|exact H]. now apply Z.
Qed.

(** X10.  The parser looks at the words of the text only: two texts with
    the same words give the same result; whitespace before and behind the
    text changes nothing; and a text that is normalised already is parsed
    as it is. *)
Theorem readDateTime_whitespace : forall formats : QStringList,
  (forall s1 s2, Worded.words s1 = Worded.words s2 ->
     parse formats s1 = parse formats s2) /\
  (forall before s behind, onlySpace before = true -> onlySpace behind = true ->
     parse formats (before ++ s ++ behind) = parse formats s) /\
  (forall s, parse formats (simplified s) = parse formats s).
Proof.
  intros formats.
  assert (W : forall s1 s2, Worded.words s1 = Worded.words s2 ->
              parse formats s1 = parse formats s2).
  { intros s1 s2 H. unfold readDateTime.
    rewrite !simplified_normalized. unfold Worded.normalized. now rewrite H. }
  split; [exact W|]. split.
  - intros before s behind Hb Ha. apply W. unfold Worded.words.
    now rewrite splitWords_leading, splitWords_trailing.
  - intros s. unfold readDateTime. now rewrite simplified_idempotent.
Qed.

(** X11.  Patterns added behind a catalogue never change what a text was
    read as: when the catalogue reads the text, the longer catalogue
    gives the same result; when it does not, the result is that of the
    added patterns alone. *)
Theorem readDateTime_append : forall (formats more : QStringList) (str : QString),
  (isValid (parse formats str) = true ->
     parse (formats ++ more)%list str = parse formats str) /\
  (isValid (parse formats str) = false -> more <> [] ->
     parse (formats ++ more)%list str = parse more str).
Proof.
  intros formats more str. unfold readDateTime. split.
  - intros H. now apply tryFormats_app_valid.
  - intros H Hm. now apply tryFormats_app_invalid.
Qed.

End ParserMore.

(** The theorems on the sample parser and a locale of bare times. *)
Lemma readDateTime_after_init_witness :
  Sample.isValid None = false /\
  readDateTime Sample.Locale Sample.German Sample.DateTime None Sample.isValid
    Sample.toDateTime
    (initTranslateableTexts Sample.Locale Sample.German Sample.USEnglish
       SampleMore.clockFormat ["left over"]) " 12:30"
  = Some 45000%Z.
Proof.
  split; [reflexivity|].
  exact (proj1 (readDateTime_after_init Sample.Locale Sample.German
                  Sample.USEnglish SampleMore.clockFormat Sample.DateTime None
                  Sample.isValid Sample.toDateTime eq_refl ["left over"] " 12:30")
           eq_refl).
Defined.

Lemma readDateTime_whitespace_witness :
  Worded.words "12:30  UTC" = Worded.words " 12:30 UTC " /\
  readDateTime Sample.Locale Sample.German Sample.DateTime None Sample.isValid
    Sample.toDateTime ["HH:mm"] "12:30  UTC" =
  readDateTime Sample.Locale Sample.German Sample.DateTime None Sample.isValid
    Sample.toDateTime ["HH:mm"] " 12:30 UTC ".
Proof.
  assert (W : Worded.words "12:30  UTC" = Worded.words " 12:30 UTC ")
    by reflexivity.
  split; [exact W|].
  exact (proj1 (readDateTime_whitespace Sample.Locale Sample.German Sample.DateTime
                  None Sample.isValid Sample.toDateTime ["HH:mm"]) _ _ W).
Defined.

Lemma readDateTime_append_witness :
  Sample.isValid None = false /\
  readDateTime Sample.Locale Sample.German Sample.DateTime None Sample.isValid
    Sample.toDateTime (["dd.MM.yy HH:mm"; "HH:mm"] ++ ["HH:mm t"; "HH:mmt"])%list
    "12:30"
  = Some 45000%Z.
Proof.
  split; [reflexivity|].
  exact (proj1 (readDateTime_append Sample.Locale Sample.German Sample.DateTime
                  None Sample.isValid Sample.toDateTime eq_refl
                  ["dd.MM.yy HH:mm"; "HH:mm"] ["HH:mm t"; "HH:mmt"] "12:30")
           eq_refl).
Defined.

(** ** More about elapsed time and the two ways to split a time *)

(** X12.  The printer looks at the whole seconds of the elapsed time
    only, counted towards zero: the milliseconds within the second never
    change the output, under any translation and locale.  So everything
    shorter than a second, on either side of zero, prints without a
    translation as the locale's 0 and ["seconds"]. *)
Theorem formatElapsed_whole_seconds :
  forall (tr : QString -> QString) (localeNumber : Z -> nat -> bool -> QString)
         (elapsed : Z),
  formatElapsed tr localeNumber elapsed =
    formatElapsed tr localeNumber (1000 * Z.quot elapsed 1000) /\
  ((forall i : Z, hasChar "%" (localeNumber i 0%nat false) = false) ->
   (-1000 < elapsed < 1000)%Z ->
   formatElapsed untranslated localeNumber elapsed =
     localeNumber 0%Z 0%nat false ++ " seconds").
Proof.
  intros tr localeNumber elapsed. split.
  - unfold formatElapsed.
    now rewrite (Z.mul_comm 1000), Z.quot_mul by lia.
  - intros P R.
    assert (Q0 : Z.quot elapsed 1000 = 0%Z)
      by (apply Z.quot_small_iff; lia).
    unfold formatElapsed. rewrite Q0.
    change (narrow_int 0) with 0%Z. cbn [Z.ltb Z.compare Z.eqb].
    unfold untranslated. now rewrite (fill_seconds localeNumber P).
Qed.

(** The theorem in the C locale, 999 ms before zero. *)
Lemma formatElapsed_whole_seconds_witness :
  (-1000 < -999 < 1000)%Z /\
  formatElapsed untranslated cLocaleNumber (-999) = "0 seconds".
Proof.
  assert (R : (-1000 < -999 < 1000)%Z) by lia.
  split; [exact R|].
  exact (proj2 (formatElapsed_whole_seconds untranslated cLocaleNumber (-999))
           (fun i => cNumber_plain i 0 false) R).
Defined.

(** X13.  For a time from 0 up to the largest [int] the two ways to split a time
    agree on the whole minutes: days, hours and minutes of the formatters
    with days are the hours and minutes of the formatters without, as
    long as the minutes round below 60; from 59.5 unrounded minutes on,
    the formatters without days show one hour more and 0 minutes where
    the formatters with days show 60 minutes. *)
Theorem hoursMinutes_daysHoursMinutes : forall time : Q,
  (0 <= time)%Q -> (time < 2147483647 # 1)%Q ->
  let days := fst (fst (daysHoursMinutes time)) in
  let hours := snd (fst (daysHoursMinutes time)) in
  let minutes := snd (daysHoursMinutes time) in
  ((unroundedMinutes time < 119 # 2)%Q ->
     hoursMinutes time = ((24 * days + hours)%Z, minutes)) /\
  ((119 # 2 <= unroundedMinutes time)%Q ->
     hoursMinutes time = ((24 * days + hours + 1)%Z, 0%Z) /\ minutes = 60%Z).
Proof.
  intros time H0 _ days hours minutes.
  pose proof (daysHoursMinutes_no_carry time H0) as F.
  pose proof (hoursMinutes_carry time H0) as G.
  assert (M : minutes = roundToInt (unroundedMinutes time)) by reflexivity.
  subst days hours. clearbody minutes.
  destruct (daysHoursMinutes time) as [[d h] m].
  destruct (hoursMinutes time) as [hh mm]. cbn [fst snd] in *.
  destruct F as (Ed & Eh & _ & _ & _ & Fm).
  destruct G as (_ & Hi & Lo).
  pose proof (Z.div_mod (Qfloor time) 24 ltac:(lia)) as DM.
  split.
  - intros H. destruct (Lo H) as [-> ->]. f_equal; [lia | now symmetry].
  - intros H. destruct (Hi H) as [-> ->]. split; [f_equal; lia|].
    destruct (rounded_minutes time) as (_ & R & _). rewrite M. now apply R.
Qed.

(** The theorem at 1.9999 hours and at 25.25 hours. *)
Lemma hoursMinutes_daysHoursMinutes_witness :
  (0 <= 19999 # 10000)%Q /\ (19999 # 10000 < 2147483647 # 1)%Q /\
  hoursMinutes (19999 # 10000) = (2, 0)%Z /\
  snd (daysHoursMinutes (19999 # 10000)) = 60%Z /\
  hoursMinutes (101 # 4) = (25, 15)%Z.
Proof.
  assert (P : (0 <= 19999 # 10000)%Q) by discriminate.
  assert (R : (19999 # 10000 < 2147483647 # 1)%Q) by reflexivity.
  split; [exact P|]. split; [exact R|].
  pose proof (proj2 (hoursMinutes_daysHoursMinutes (19999 # 10000) P R)
                ltac:(vm_compute; discriminate)) as [A B].
  split; [exact A|]. split; [exact B|].
  exact (proj1 (hoursMinutes_daysHoursMinutes (101 # 4) ltac:(discriminate)
                  ltac:(reflexivity))
           ltac:(reflexivity)).
Defined.
